(** * better-auth-metadata: the metadata plugin, embedded and verified

    The plugin (the [metadata] plugin object with its four endpoints
    [setMetadata], [getMetadata], [updateMetadata], [deleteMetadata]) stores
    one JSON document per user in a nullable string column of the user
    table.  This development embeds

    - the JSON values the handlers manipulate, with the property reads and
      writes of the language on them ([truthy], [get], [assign], [define]);
    - the two inline algorithms: the object spread of [setMetadata] ([merge])
      and the dot-path walk of [updateMetadata] ([setPath]);
    - the serialisation boundary ([JSON_stringify], [JSON_parse]);
    - the four handlers, as programs over the storage adapter
      ([findOne], [update]) that log every adapter call.

    Model scope.  Numbers are the integers; strings are sequences of 8-bit
    code units.  The handlers are module code, hence strict: a property
    write on a primitive raises [TypeError].  Whenever an execution leaves
    the JSON data (it reads a property inherited from a built-in prototype,
    indexes an array or a primitive, or meets a number with a fraction or
    exponent), the model answers [Unmodelled] and says nothing about it.
    The adapter is an in-memory user table: [findOne] looks a row up by id,
    [update] rewrites the column of the row with that id when there is one. *)

From Stdlib Require Import ZArith String Ascii List Bool Lia.
From stdpp Require Import base option list strings gmap pretty.

Local Open Scope string_scope.
Local Open Scope list_scope.
Local Open Scope Z_scope.

(** ** Outcomes: a value, a thrown error, or an execution outside the model *)

Inductive error : Set :=
  | UNAUTHORIZED   (* new APIError("UNAUTHORIZED", ...) *)
  | TypeError
  | SyntaxError.   (* raised by JSON.parse *)

Inductive outcome (A : Type) : Type :=
  | Returns (a : A)
  | Throws (e : error)
  | Unmodelled.

Arguments Returns {A} a.
Arguments Throws {A} e.
Arguments Unmodelled {A}.

Definition obind {A B : Type} (m : outcome A) (f : A -> outcome B) : outcome B :=
  match m with
  | Returns a => f a
  | Throws e => Throws e
  | Unmodelled => Unmodelled
  end.

Notation "'let*' x := m 'in' k" := (obind m (fun x => k))
  (at level 10, x pattern, k at level 200).

(** ** JSON values *)

Unset Elimination Schemes.
Inductive value : Type :=
  | JNull
  | JBool (b : bool)
  | JNum (n : Z)
  | JStr (s : string)
  | JArr (items : list value)
  | JObj (fields : list (string * value)).
Set Elimination Schemes.

(** ToBoolean, as used by [!x], [x ? a : b] and [a && b]. *)
Definition truthy (v : value) : bool :=
  match v with
  | JNull => false
  | JBool b => b
  | JNum n => negb (n =? 0)
  | JStr s => negb (s =? "")%string
  | JArr _ => true
  | JObj _ => true
  end.

Definition is_mapping (v : value) : bool :=
  match v with JObj _ => true | _ => false end.

(** ** Objects: own properties in enumeration order *)

Definition is_digit (c : ascii) : bool :=
  let n := N_of_ascii c in ((48 <=? n) && (n <=? 57))%N.

Definition digit_value (c : ascii) : N := (N_of_ascii c - 48)%N.

Fixpoint digits_value (acc : N) (s : string) : option N :=
  match s with
  | EmptyString => Some acc
  | String c s' =>
      if is_digit c then digits_value (10 * acc + digit_value c)%N s' else None
  end.

(** An array index: a canonical decimal numeral below 2^32 - 1.  Own keys
    that are array indices are enumerated first, in ascending order. *)
Definition array_index (k : string) : option N :=
  match k with
  | EmptyString => None
  | String c rest =>
      if (Ascii.eqb c "0" && negb (rest =? ""))%string then None
      else if (10 <? String.length k)%nat then None
      else match digits_value 0 k with
           | Some n => if (n <? 4294967295)%N then Some n else None
           | None => None
           end
  end.

(** [comes_before k k'] : a new key [k] is enumerated before the existing
    key [k'] (only an array index overtakes keys created earlier). *)
Definition comes_before (k k' : string) : bool :=
  match array_index k, array_index k' with
  | Some i, Some j => (i <? j)%N
  | Some _, None => true
  | None, _ => false
  end.

Fixpoint own (fs : list (string * value)) (k : string) : option value :=
  match fs with
  | [] => None
  | (k', v) :: fs' => if (k' =? k)%string then Some v else own fs' k
  end.

(** Assignment to an existing own slot: the key keeps its place. *)
Fixpoint replace (k : string) (v : value) (fs : list (string * value))
  : list (string * value) :=
  match fs with
  | [] => []
  | (k', v') :: fs' =>
      if (k' =? k)%string then (k, v) :: fs' else (k', v') :: replace k v fs'
  end.

(** Creation of a new own slot, at its place in the enumeration order. *)
Fixpoint insert_new (k : string) (v : value) (fs : list (string * value))
  : list (string * value) :=
  match fs with
  | [] => [(k, v)]
  | (k', v') :: fs' =>
      if comes_before k k' then (k, v) :: (k', v') :: fs'
      else (k', v') :: insert_new k v fs'
  end.

(** CreateDataProperty, and [o[k] = v] on an own data slot. *)
Definition define (k : string) (v : value) (fs : list (string * value))
  : list (string * value) :=
  match own fs k with
  | Some _ => replace k v fs
  | None => insert_new k v fs
  end.

(** The own property names of [Object.prototype]: every object made by an
    object literal, a spread or [JSON.parse] inherits them. *)
Definition Object_prototype : list string :=
  [ "constructor"; "__defineGetter__"; "__defineSetter__"; "hasOwnProperty";
    "__lookupGetter__"; "__lookupSetter__"; "isPrototypeOf";
    "propertyIsEnumerable"; "toString"; "valueOf"; "__proto__";
    "toLocaleString" ].

Definition inherited (k : string) : bool :=
  existsb (String.eqb k) Object_prototype.

(** The result of the property read [o[k]] on an object. *)
Inductive property : Type :=
  | Own (v : value)     (* an own data property *)
  | Inherited           (* found on [Object.prototype]: a built-in, truthy *)
  | Absent.             (* [undefined] *)

Definition get (fs : list (string * value)) (k : string) : property :=
  match own fs k with
  | Some v => Own v
  | None => if inherited k then Inherited else Absent
  end.

(** ** The dot-path walk of [updateMetadata] *)

(** [path.split(".")] *)
Fixpoint split (sep : ascii) (s : string) : list string :=
  match s with
  | EmptyString => [""]
  | String c s' =>
      if Ascii.eqb c sep then "" :: split sep s'
      else match split sep s' with
           | [] => [String c ""]
           | seg :: segs => String c seg :: segs
           end
  end.

(** [current[k] = v].  On an object the write lands in an own slot, unless
    the key is the inherited accessor [__proto__]; on a primitive, and on
    [null], strict code raises. *)
Definition assign (current : value) (k : string) (v : value) : outcome value :=
  match current with
  | JObj fs =>
      match own fs k with
      | Some _ => Returns (JObj (define k v fs))
      | None => if (k =? "__proto__")%string then Unmodelled
                else Returns (JObj (define k v fs))
      end
  | JArr _ => Unmodelled
  | JNull => Throws TypeError
  | JBool _ | JNum _ | JStr _ =>
      if (k =? "__proto__")%string then Unmodelled else Throws TypeError
  end.

(** The loop
<<
    for (let i = 0; i < keys.length - 1; i++) {
      if (!current[keys[i]]) { current[keys[i]] = {}; }
      current = current[keys[i]];
    }
    current[keys[keys.length - 1]] = value;
>>
    as a function returning [current] after the in-place updates below it.
    With no key at all, [keys[-1]] is [undefined], the key ["undefined"]. *)
Fixpoint walk (current : value) (keys : list string) (v : value) {struct keys}
  : outcome value :=
  match keys with
  | [] => assign current "undefined" v
  | [k] => assign current k v
  | k :: rest =>
      match current with
      | JObj fs =>
          match get fs k with
          | Own child =>
              if truthy child
              then let* child' := walk child rest v in
                   Returns (JObj (define k child' fs))
              else let* child' := walk (JObj []) rest v in
                   Returns (JObj (define k child' fs))
          | Absent =>
              let* child' := walk (JObj []) rest v in
              Returns (JObj (define k child' fs))
          | Inherited => Unmodelled
          end
      | JNull => Throws TypeError
      | JBool _ | JNum _ | JStr _ | JArr _ => Unmodelled
      end
  end.

Definition setPath (root : value) (path : string) (v : value) : outcome value :=
  walk root (split "." path) v.

(** ** The object spread of [setMetadata] *)

(** The own enumerable properties a spread copies from its operand. *)
Fixpoint indexed (i : nat) (items : list value) : list (string * value) :=
  match items with
  | [] => []
  | x :: items' => (pretty i, x) :: indexed (S i) items'
  end.

Fixpoint chars (s : string) : list value :=
  match s with
  | EmptyString => []
  | String c s' => JStr (String c "") :: chars s'
  end.

Definition own_enumerable (v : value) : list (string * value) :=
  match v with
  | JObj fs => fs
  | JArr items => indexed 0 items
  | JStr s => indexed 0 (chars s)
  | JNull | JBool _ | JNum _ => []
  end.

(** [{ ...target, ...source }] continued: copy [source] into [target]. *)
Definition spread (target : list (string * value)) (source : value)
  : list (string * value) :=
  fold_left (fun acc kv => define (fst kv) (snd kv) acc)
            (own_enumerable source) target.

(** [{ ...existingMetadata, ...newMetadata }] *)
Definition merge (existing incoming : value) : value :=
  JObj (spread (spread [] existing) incoming).

(** ** Serialisation: [JSON.stringify] *)

Definition dquote : ascii := "034"%char.

(** Test notation: a JSON text written with apostrophes for its quotes. *)
Fixpoint js (s : string) : string :=
  match s with
  | EmptyString => ""
  | String c s' => String (if Ascii.eqb c "'" then dquote else c) (js s')
  end.

Definition hex_digit (n : N) : ascii :=
  if (n <? 10)%N then ascii_of_N (48 + n) else ascii_of_N (87 + n).

(** QuoteJSONString on one code unit. *)
Definition escape (c : ascii) : string :=
  let n := N_of_ascii c in
  if (n =? 34)%N then String "\" (String dquote "")
  else if (n =? 92)%N then "\\"
  else if (n =? 8)%N then "\b"
  else if (n =? 12)%N then "\f"
  else if (n =? 10)%N then "\n"
  else if (n =? 13)%N then "\r"
  else if (n =? 9)%N then "\t"
  else if (n <? 32)%N
       then String "\" (String "u" (String "0" (String "0"
              (String (hex_digit (n / 16)) (String (hex_digit (n mod 16)) "")))))
  else String c "".

Fixpoint escaped (s : string) : string :=
  match s with
  | EmptyString => ""
  | String c s' => escape c +:+ escaped s'
  end.

Definition quote (s : string) : string :=
  String dquote (escaped s +:+ String dquote "").

(** The elements of an array and the members of an object, separated by
    commas; [f] serialises one value. *)
Definition stringify_elements (f : value -> string)
  : bool -> list value -> string :=
  fix elements (first : bool) (l : list value) : string :=
    match l with
    | [] => ""
    | x :: l' => (if first then "" else ",") +:+ f x +:+ elements false l'
    end.

Definition stringify_members (f : value -> string)
  : bool -> list (string * value) -> string :=
  fix members (first : bool) (l : list (string * value)) : string :=
    match l with
    | [] => ""
    | (k, x) :: l' =>
        (if first then "" else ",") +:+ quote k +:+ ":" +:+ f x
        +:+ members false l'
    end.

(** A number is printed in digits, which is what the language prints for an
    integer of magnitude below 10^21 (from there on it prints an exponent
    form); the documents read back by [JSON_parse] hold integers up to
    [max_exact]. *)
Fixpoint JSON_stringify (v : value) : string :=
  match v with
  | JNull => "null"
  | JBool true => "true"
  | JBool false => "false"
  | JNum n => pretty n
  | JStr s => quote s
  | JArr items => "[" +:+ stringify_elements JSON_stringify true items +:+ "]"
  | JObj fields => "{" +:+ stringify_members JSON_stringify true fields +:+ "}"
  end.

(** ** Deserialisation: [JSON.parse] *)

Definition is_ws (c : ascii) : bool :=
  let n := N_of_ascii c in
  ((n =? 32) || (n =? 9) || (n =? 10) || (n =? 13))%N.

Fixpoint skip_ws (s : string) : string :=
  match s with
  | EmptyString => s
  | String c s' => if is_ws c then skip_ws s' else s
  end.

Definition hex_value (c : ascii) : option N :=
  let n := N_of_ascii c in
  if ((48 <=? n) && (n <=? 57))%N then Some (n - 48)%N
  else if ((97 <=? n) && (n <=? 102))%N then Some (n - 87)%N
  else if ((65 <=? n) && (n <=? 70))%N then Some (n - 55)%N
  else None.

(** The single-character escapes of a string literal. *)
Definition unescape (e : ascii) : option ascii :=
  let n := N_of_ascii e in
  if (n =? 34)%N then Some dquote
  else if (n =? 92)%N then Some "\"%char
  else if (n =? 47)%N then Some "/"%char
  else if (n =? 98)%N then Some "008"%char
  else if (n =? 102)%N then Some "012"%char
  else if (n =? 110)%N then Some "010"%char
  else if (n =? 114)%N then Some "013"%char
  else if (n =? 116)%N then Some "009"%char
  else None.

(** A string literal after its opening quote: the decoded string and the
    text after the closing quote.  A code unit above 255 is outside the
    model. *)
Fixpoint scan_string (s : string) : outcome (string * string) :=
  match s with
  | EmptyString => Throws SyntaxError
  | String c s' =>
      if Ascii.eqb c dquote then Returns ("", s')
      else if Ascii.eqb c "\" then
        match s' with
        | EmptyString => Throws SyntaxError
        | String e s'' =>
            if Ascii.eqb e "u" then
              match s'' with
              | String h1 (String h2 (String h3 (String h4 s3))) =>
                  match hex_value h1, hex_value h2, hex_value h3, hex_value h4 with
                  | Some a, Some b, Some c', Some d =>
                      let code := (((a * 16 + b) * 16 + c') * 16 + d)%N in
                      if (code <? 256)%N
                      then let* (str, rest) := scan_string s3 in
                           Returns (String (ascii_of_N code) str, rest)
                      else Unmodelled
                  | _, _, _, _ => Throws SyntaxError
                  end
              | _ => Throws SyntaxError
              end
            else
              match unescape e with
              | Some c' => let* (str, rest) := scan_string s'' in
                           Returns (String c' str, rest)
              | None => Throws SyntaxError
              end
        end
      else if (N_of_ascii c <? 32)%N then Throws SyntaxError
      else let* (str, rest) := scan_string s' in Returns (String c str, rest)
  end.

Fixpoint scan_digits (acc : N) (s : string) : N * string :=
  match s with
  | EmptyString => (acc, s)
  | String c s' =>
      if is_digit c then scan_digits (10 * acc + digit_value c)%N s' else (acc, s)
  end.

(** Does a fraction or an exponent follow?  Such numbers are not integers
    and are outside the model. *)
Definition fraction_follows (s : string) : bool :=
  match s with
  | EmptyString => false
  | String c _ => Ascii.eqb c "." || Ascii.eqb c "e" || Ascii.eqb c "E"
  end.

(** The largest magnitude up to which every integer is a number of the
    language. *)
Definition max_exact : N := (2 ^ 53)%N.

(** A number literal after its optional minus sign. *)
Definition scan_number (negative : bool) (s : string) : outcome (value * string) :=
  match s with
  | EmptyString => Throws SyntaxError
  | String c s' =>
      if Ascii.eqb c "0" then
        match s' with
        | String d _ =>
            if is_digit d then Throws SyntaxError
            else if fraction_follows s' then Unmodelled
            else Returns (JNum 0, s')
        | EmptyString => Returns (JNum 0, s')
        end
      else if is_digit c then
        let '(n, rest) := scan_digits 0 s in
        if fraction_follows rest then Unmodelled
        else if (max_exact <? n)%N then Unmodelled
        else Returns (JNum (if negative then - Z.of_N n else Z.of_N n), rest)
      else Throws SyntaxError
  end.

(** [strip_prefix word s]: what follows [word] at the head of [s]. *)
Fixpoint strip_prefix (word s : string) : option string :=
  match word with
  | EmptyString => Some s
  | String c word' =>
      match s with
      | EmptyString => None
      | String d s' => if Ascii.eqb c d then strip_prefix word' s' else None
      end
  end.

Definition scan_literal (word : string) (v : value) (s : string)
  : outcome (value * string) :=
  match strip_prefix word s with
  | Some rest => Returns (v, rest)
  | None => Throws SyntaxError
  end.

(** Recursive descent; [fuel] bounds the nesting of calls and is set by
    [JSON_parse] from the length of the text. *)
Fixpoint parse_value (fuel : nat) (s : string) : outcome (value * string) :=
  match fuel with
  | O => Unmodelled
  | S fuel' =>
      match skip_ws s with
      | EmptyString => Throws SyntaxError
      | String c s' =>
          if Ascii.eqb c "{" then
            match skip_ws s' with
            | String c1 s1 =>
                if Ascii.eqb c1 "}" then Returns (JObj [], s1)
                else let* (fs, rest) := parse_members fuel' [] (String c1 s1) in
                     Returns (JObj fs, rest)
            | EmptyString => Throws SyntaxError
            end
          else if Ascii.eqb c "[" then
            match skip_ws s' with
            | String c1 s1 =>
                if Ascii.eqb c1 "]" then Returns (JArr [], s1)
                else let* (items, rest) := parse_elements fuel' (String c1 s1) in
                     Returns (JArr items, rest)
            | EmptyString => Throws SyntaxError
            end
          else if Ascii.eqb c dquote then
            let* (str, rest) := scan_string s' in Returns (JStr str, rest)
          else if Ascii.eqb c "-" then scan_number true s'
          else if is_digit c then scan_number false (String c s')
          else if Ascii.eqb c "n" then scan_literal "null" JNull (String c s')
          else if Ascii.eqb c "t" then scan_literal "true" (JBool true) (String c s')
          else if Ascii.eqb c "f" then scan_literal "false" (JBool false) (String c s')
          else Throws SyntaxError
      end
  end
with parse_elements (fuel : nat) (s : string) : outcome (list value * string) :=
  match fuel with
  | O => Unmodelled
  | S fuel' =>
      let* (x, rest) := parse_value fuel' s in
      match skip_ws rest with
      | EmptyString => Throws SyntaxError
      | String c rest' =>
          if Ascii.eqb c "," then
            let* (xs, rest'') := parse_elements fuel' rest' in Returns (x :: xs, rest'')
          else if Ascii.eqb c "]" then Returns ([x], rest')
          else Throws SyntaxError
      end
  end
with parse_members (fuel : nat) (acc : list (string * value)) (s : string)
  : outcome (list (string * value) * string) :=
  match fuel with
  | O => Unmodelled
  | S fuel' =>
      match skip_ws s with
      | EmptyString => Throws SyntaxError
      | String c s1 =>
          if Ascii.eqb c dquote then
            let* (k, s2) := scan_string s1 in
            match skip_ws s2 with
            | EmptyString => Throws SyntaxError
            | String c2 s3 =>
                if Ascii.eqb c2 ":" then
                  let* (x, s4) := parse_value fuel' s3 in
                  match skip_ws s4 with
                  | EmptyString => Throws SyntaxError
                  | String c4 s5 =>
                      if Ascii.eqb c4 "," then parse_members fuel' (define k x acc) s5
                      else if Ascii.eqb c4 "}" then Returns (define k x acc, s5)
                      else Throws SyntaxError
                  end
                else Throws SyntaxError
            end
          else Throws SyntaxError
      end
  end.

Definition JSON_parse (s : string) : outcome value :=
  let* (v, rest) := parse_value (2 * String.length s + 2) s in
  match skip_ws rest with
  | EmptyString => Returns v
  | String _ _ => Throws SyntaxError
  end.

(** ** The storage adapter and the handler monad *)

(** A row of the user table, reduced to the column the plugin adds:
    [metadata: { type: "string", required: false }]. *)
Record user_row : Type := { metadata : option string }.

(** The adapter calls a handler makes, in order. *)
Inductive call : Type :=
  | FindOne (id : string)
  | Update (id : string) (data : option string).

Record world : Type := {
  users : gmap string user_row;   (* the user table, by id *)
  calls : list call               (* the adapter calls made so far *)
}.

Definition prog (A : Type) : Type := world -> outcome A * world.

Definition ret {A : Type} (a : A) : prog A := fun w => (Returns a, w).

Definition throw {A : Type} (e : error) : prog A := fun w => (Throws e, w).

(** A pure computation that may throw or leave the model. *)
Definition lift {A : Type} (m : outcome A) : prog A := fun w => (m, w).

Definition bind {A B : Type} (m : prog A) (f : A -> prog B) : prog B :=
  fun w =>
    match m w with
    | (Returns a, w') => f a w'
    | (Throws e, w') => (Throws e, w')
    | (Unmodelled, w') => (Unmodelled, w')
    end.

Notation "x <- m ;; k" := (bind m (fun x => k))
  (at level 100, m at next level, right associativity).
Notation "m ;; k" := (bind m (fun _ => k))
  (at level 100, right associativity).

Definition record (c : call) (w : world) : world :=
  {| users := users w; calls := calls w ++ [c] |}.

(** [adapter.findOne({ model: "user", where: [{ field: "id", value: id }] })] *)
Definition findOne (id : string) : prog (option user_row) :=
  fun w => (Returns (users w !! id), record (FindOne id) w).

(** [adapter.update({ model: "user", where: [...id...], data: { metadata } })]:
    rewrites the column of the row with that id, if there is one. *)
Definition store (id : string) (data : option string) (w : world) : world :=
  {| users := alter (fun _ => {| metadata := data |}) id (users w);
     calls := calls w |}.

Definition update (id : string) (data : option string) : prog unit :=
  fun w => (Returns tt, record (Update id data) (store id data w)).

(** ** Requests *)

Record session_user : Type := { id : option string }.
Record session : Type := { user : option session_user }.

(** [session?.user?.id] *)
Definition session_user_id (s : option session) : option string :=
  match s with
  | Some s' => match user s' with
               | Some u => id u
               | None => None
               end
  | None => None
  end.

(** [if (!session?.user?.id) throw new APIError("UNAUTHORIZED", ...)] *)
Definition require_user (s : option session) : prog string :=
  match session_user_id s with
  | Some i => if (i =? "")%string then throw UNAUTHORIZED else ret i
  | None => throw UNAUTHORIZED
  end.

(** The body of [/metadata/set]: [{ metadata, merge? }]. *)
Record set_body : Type := { body_metadata : value; body_merge : option bool }.

(** The body of [/metadata/update]: [{ path, value }]; [path] may be missing
    from the request. *)
Record update_body : Type := { body_path : option string; body_value : value }.

(** [user?.metadata] when it is truthy: a row, with a non-null and non-empty
    column. *)
Definition truthy_metadata (u : option user_row) : option string :=
  match u with
  | Some r => match metadata r with
              | Some text => if (text =? "")%string then None else Some text
              | None => None
              end
  | None => None
  end.

(** ** The four endpoints *)

Definition setMetadata (s : option session) (body : set_body) : prog value :=
  uid <- require_user s ;;
  let newMetadata := body_metadata body in
  let merge_ := default true (body_merge body) in
  u <- findOne uid ;;
  updatedMetadata <-
    match (if merge_ then truthy_metadata u else None) with
    | Some text =>
        existingMetadata <- lift (JSON_parse text) ;;
        ret (merge existingMetadata newMetadata)
    | None => ret newMetadata
    end ;;
  update uid (Some (JSON_stringify updatedMetadata)) ;;
  ret (JObj [("metadata", updatedMetadata); ("success", JBool true)]).

Definition getMetadata (s : option session) : prog value :=
  uid <- require_user s ;;
  u <- findOne uid ;;
  m <- match truthy_metadata u with
       | Some text => lift (JSON_parse text)
       | None => ret JNull
       end ;;
  ret (JObj [("metadata", m)]).

Definition updateMetadata (s : option session) (body : update_body) : prog value :=
  uid <- require_user s ;;
  u <- findOne uid ;;
  m <- match truthy_metadata u with
       | Some text => lift (JSON_parse text)
       | None => ret (JObj [])
       end ;;
  keys <- match body_path body with
          | Some path => ret (split "." path)
          | None => throw TypeError      (* [path.split] on [undefined] *)
          end ;;
  m' <- lift (walk m keys (body_value body)) ;;
  update uid (Some (JSON_stringify m')) ;;
  ret (JObj [("metadata", m'); ("success", JBool true)]).

Definition deleteMetadata (s : option session) : prog value :=
  uid <- require_user s ;;
  update uid None ;;
  ret (JObj [("success", JBool true)]).

(** The four operations with their inputs, and a request made in a world. *)
Inductive operation : Type :=
  | SetMetadata (body : set_body)
  | GetMetadata
  | UpdateMetadata (body : update_body)
  | DeleteMetadata.

Definition handle (op : operation) (s : option session) : prog value :=
  match op with
  | SetMetadata body => setMetadata s body
  | GetMetadata => getMetadata s
  | UpdateMetadata body => updateMetadata s body
  | DeleteMetadata => deleteMetadata s
  end.

(** A world in which no adapter call has been made yet. *)
Definition fresh (table : gmap string user_row) : world :=
  {| users := table; calls := [] |}.

Definition logged_in (i : string) : option session :=
  Some {| user := Some {| id := Some i |} |}.

Definition row (text : string) : user_row := {| metadata := Some text |}.
Definition blank_row : user_row := {| metadata := None |}.

(** [v[k]] for an own property of a mapping. *)
Definition member (v : value) (k : string) : option value :=
  match v with
  | JObj fs => own fs k
  | _ => None
  end.

(** The chain of fresh mappings the walk creates along [keys], ending in
    [v]. *)
Fixpoint nest (keys : list string) (v : value) : value :=
  match keys with
  | [] => v
  | k :: rest => JObj [(k, nest rest v)]
  end.

(** Where the loop stands after the segments [prefix]: the mapping it has
    reached by reading, at each segment, an own property that is truthy. *)
Fixpoint descend (current : value) (prefix : list string)
  : option (list (string * value)) :=
  match current, prefix with
  | JObj fs, [] => Some fs
  | JObj fs, k :: prefix' =>
      match own fs k with
      | Some child => if truthy child then descend child prefix' else None
      | None => None
      end
  | _, _ => None
  end.

(** [current] with the value found along [prefix] replaced by [r]. *)
Fixpoint put_at (current : value) (prefix : list string) (r : value) : value :=
  match prefix with
  | [] => r
  | k :: prefix' =>
      match current with
      | JObj fs =>
          match own fs k with
          | Some child => JObj (define k (put_at child prefix' r) fs)
          | None => current
          end
      | _ => current
      end
  end.

(** The caller identity of a request, when it carries a valid one. *)
Definition caller (s : option session) : option string :=
  match session_user_id s with
  | Some i => if (i =? "")%string then None else Some i
  | None => None
  end.

(** The value [getMetadata] and [updateMetadata] start from: the
    deserialised column, or [fallback] when the column is falsy. *)
Definition load (fallback : value) (u : option user_row) : outcome value :=
  match truthy_metadata u with
  | Some text => JSON_parse text
  | None => Returns fallback
  end.

(** The pure part of [setMetadata]: from the row read to the value written. *)
Definition updated_metadata (body : set_body) (u : option user_row)
  : outcome value :=
  match (if default true (body_merge body) then truthy_metadata u else None) with
  | Some text =>
      let* existingMetadata := JSON_parse text in
      Returns (merge existingMetadata (body_metadata body))
  | None => Returns (body_metadata body)
  end.

(** The pure part of [updateMetadata]. *)
Definition patched_metadata (body : update_body) (u : option user_row)
  : outcome value :=
  let* m := load (JObj []) u in
  let* keys := match body_path body with
               | Some path => Returns (split "." path)
               | None => Throws TypeError
               end in
  walk m keys (body_value body).

(** [{ metadata: m, success: true }] *)
Definition respond (m : value) : value :=
  JObj [("metadata", m); ("success", JBool true)].

(** One read of the row of [uid], the pure transformation, then one write of
    its serialised result and the response; an error in between ends the
    request after the read. *)
Definition read_modify_write (uid : string)
    (transform : option user_row -> outcome value) (w : world)
  : outcome value * world :=
  let w1 := record (FindOne uid) w in
  match transform (users w !! uid) with
  | Returns m =>
      let text := Some (JSON_stringify m) in
      (Returns (respond m), record (Update uid text) (store uid text w1))
  | Throws e => (Throws e, w1)
  | Unmodelled => (Unmodelled, w1)
  end.

Definition is_write (c : call) : bool :=
  match c with Update _ _ => true | FindOne _ => false end.

(** ** Notions used by the properties *)

(** Every number in [v] is an integer of magnitude at most [max_exact]. *)
Fixpoint representable (v : value) : bool :=
  match v with
  | JNum n => (Z.abs n <=? Z.of_N max_exact)
  | JArr items => forallb representable items
  | JObj fs => forallb (fun kv => representable (snd kv)) fs
  | JNull | JBool _ | JStr _ => true
  end.

Definition representable_fields (fs : list (string * value)) : bool :=
  forallb (fun kv => representable (snd kv)) fs.

(** Fuel that suffices to parse the serialisation of [v]. *)
Fixpoint need (v : value) : nat :=
  match v with
  | JArr items => S (list_sum (map (fun x => S (need x)) items))
  | JObj fs => S (list_sum (map (fun kv => S (need (snd kv))) fs))
  | JNull | JBool _ | JNum _ | JStr _ => 1
  end.

(** What may follow a value inside a JSON text: the end, a comma, or a
    closing bracket or brace. *)
Definition boundary (s : string) : bool :=
  match s with
  | EmptyString => true
  | String c _ => Ascii.eqb c "," || Ascii.eqb c "]" || Ascii.eqb c "}"
  end.

(** The invariant of the spec: every column that is present deserialises to
    a mapping. *)
Definition stored_mappings (w : world) : Prop :=
  forall uid text,
    users w !! uid = Some (row text) ->
    exists fs, JSON_parse text = Returns (JObj fs).

(** A request as its TypeScript type has it: the metadata of [setMetadata]
    is a mapping; the values sent are within the numbers of the model. *)
Definition well_typed (op : operation) : Prop :=
  match op with
  | SetMetadata body =>
      is_mapping (body_metadata body) = true
      /\ representable (body_metadata body) = true
  | UpdateMetadata body => representable (body_value body) = true
  | GetMetadata | DeleteMetadata => True
  end.

(** The first character of a serialised value opens a value. *)
Definition opens_value (s : string) : Prop :=
  exists c r, s = String c r /\ is_ws c = false
              /\ Ascii.eqb c "]" = false /\ Ascii.eqb c "}" = false.

(** [v] survives serialisation: its text, followed by [rest], parses back
    to a value of the same kind and leaves [rest]. *)
Definition reparses (v : value) : Prop :=
  representable v = true ->
  forall fuel rest, (need v <= fuel)%nat -> boundary rest = true ->
  exists v', parse_value fuel (JSON_stringify v +:+ rest) = Returns (v', rest)
             /\ is_mapping v' = is_mapping v.

(** The adapter calls made between the worlds [w] and [w']. *)
Definition new_calls (w w' : world) : list call :=
  drop (length (calls w)) (calls w').

(** ** The request bodies as the handlers receive them *)

(** [const { a, b } = body]: the own properties of the body.  Destructuring
    [null] raises; a body that is an array or a primitive is outside the
    model. *)
Definition destructure (body : value) : outcome (list (string * value)) :=
  match body with
  | JObj fs => Returns fs
  | JNull => Throws TypeError
  | JBool _ | JNum _ | JStr _ | JArr _ => Unmodelled
  end.

(** [merge = true] in the pattern: the default stands in for a missing
    property only; a property that is present is used as it is, and
    [merge && ...] tests it for truthiness. *)
Definition merge_flag (fs : list (string * value)) : bool :=
  match own fs "merge" with
  | Some flag => truthy flag
  | None => true
  end.

(** [/metadata/set] from the parsed body on.  Without a [metadata] property
    [newMetadata] is [undefined]: the spread copies nothing from it, and in
    the other branch [JSON.stringify(undefined)] is no string, which is
    outside the model. *)
Definition setMetadata_request (s : option session) (body : value) : prog value :=
  uid <- require_user s ;;
  fs <- lift (destructure body) ;;
  let newMetadata := own fs "metadata" in
  let merge_ := merge_flag fs in
  u <- findOne uid ;;
  updatedMetadata <-
    match (if merge_ then truthy_metadata u else None) with
    | Some text =>
        existingMetadata <- lift (JSON_parse text) ;;
        ret (Some (match newMetadata with
                   | Some m => merge existingMetadata m
                   | None => JObj (spread [] existingMetadata)
                   end))
    | None => ret newMetadata
    end ;;
  match updatedMetadata with
  | Some m =>
      update uid (Some (JSON_stringify m)) ;;
      ret (JObj [("metadata", m); ("success", JBool true)])
  | None => lift Unmodelled
  end.

(** [path.split(".")] for the [path] of the body: a string is split, and
    every other JSON value raises (no property to read on [undefined] and
    [null], no function [split] on the others). *)
Definition split_path (path : option value) : outcome (list string) :=
  match path with
  | Some (JStr p) => Returns (split "." p)
  | Some (JNull | JBool _ | JNum _ | JArr _ | JObj _) | None => Throws TypeError
  end.

(** [/metadata/update] from the parsed body on.  Without a [value] property
    the value written is [undefined], which is outside the model. *)
Definition updateMetadata_request (s : option session) (body : value)
  : prog value :=
  uid <- require_user s ;;
  fs <- lift (destructure body) ;;
  u <- findOne uid ;;
  m <- match truthy_metadata u with
       | Some text => lift (JSON_parse text)
       | None => ret (JObj [])
       end ;;
  keys <- lift (split_path (own fs "path")) ;;
  v <- match own fs "value" with
       | Some v => ret v
       | None => lift Unmodelled
       end ;;
  m' <- lift (walk m keys v) ;;
  update uid (Some (JSON_stringify m')) ;;
  ret (JObj [("metadata", m'); ("success", JBool true)]).

(** ** The endpoints of the plugin and the actions of the client *)

Inductive action : Type := ActSet | ActGet | ActUpdate | ActDelete.

(** [createAuthEndpoint(path, { method, ... }, handler)] *)
Definition endpoint_path (a : action) : string :=
  match a with
  | ActSet => "/metadata/set"
  | ActGet => "/metadata/get"
  | ActUpdate => "/metadata/update"
  | ActDelete => "/metadata/delete"
  end.

Definition endpoint_method (a : action) : string :=
  match a with
  | ActSet => "POST"
  | ActGet => "GET"
  | ActUpdate => "POST"
  | ActDelete => "POST"
  end.

(** The handler behind an endpoint, from the parsed body on ([getMetadata]
    and [deleteMetadata] read no body). *)
Definition endpoint_handler (a : action) (s : option session) (body : value)
  : prog value :=
  match a with
  | ActSet => setMetadata_request s body
  | ActGet => getMetadata s
  | ActUpdate => updateMetadata_request s body
  | ActDelete => deleteMetadata s
  end.

(** What a client action hands to [$fetch]: the route, and the option object
    [{ method: ..., body: data, ...options }] ([body] for [setMetadata] and
    [updateMetadata] only).  [options] may be missing. *)
Definition client_route (a : action) : string :=
  match a with
  | ActSet => "/metadata/set"
  | ActGet => "/metadata/get"
  | ActUpdate => "/metadata/update"
  | ActDelete => "/metadata/delete"
  end.

Definition client_base (a : action) (data : value) : list (string * value) :=
  match a with
  | ActSet => define "body" data (define "method" (JStr "POST") [])
  | ActGet => define "method" (JStr "GET") []
  | ActUpdate => define "body" data (define "method" (JStr "POST") [])
  | ActDelete => define "method" (JStr "POST") []
  end.

Definition client_options (a : action) (data : value) (options : option value)
  : list (string * value) :=
  match options with
  | Some o => spread (client_base a data) o
  | None => client_base a data
  end.

(** ** Reading a document along a path *)

(** [v[k1][k2]...] through own properties of mappings. *)
Fixpoint read (v : value) (keys : list string) : option value :=
  match keys with
  | [] => Some v
  | k :: rest =>
      match v with
      | JObj fs => match own fs k with
                   | Some child => read child rest
                   | None => None
                   end
      | _ => None
      end
  end.

(** The walk of [setPath] along [keys] stays within mappings: [current] is
    a mapping, and so is every existing value the loop goes down into (an own
    property whose value is truthy).  A missing or falsy value is replaced by
    a fresh mapping, so nothing is asked of it. *)
Fixpoint within_mappings (current : value) (keys : list string) : bool :=
  match current with
  | JObj fs =>
      match keys with
      | k :: ((_ :: _) as rest) =>
          match own fs k with
          | Some child => if truthy child then within_mappings child rest else true
          | None => true
          end
      | _ => true
      end
  | _ => false
  end.

(** Does [s] hold the character [sep]? *)
Fixpoint contains (sep : ascii) (s : string) : bool :=
  match s with
  | EmptyString => false
  | String c s' => Ascii.eqb c sep || contains sep s'
  end.

(** The segments put together again, [sep] between them. *)
Fixpoint join (sep : ascii) (segments : list string) : string :=
  match segments with
  | [] => ""
  | [seg] => seg
  | seg :: segments' => seg +:+ String sep (join sep segments')
  end.

(** Strings, numbers and booleans. *)
Definition is_scalar (v : value) : bool :=
  match v with
  | JBool _ | JNum _ | JStr _ => true
  | JNull | JArr _ | JObj _ => false
  end.

(** The value [JSON.parse] rebuilds from the text of [v]: the members of
    each object defined one after the other. *)
Fixpoint canon (v : value) : value :=
  match v with
  | JArr items => JArr (map canon items)
  | JObj fs =>
      JObj (fold_left (fun acc kv => define (fst kv) (canon (snd kv)) acc) fs [])
  | JNull | JBool _ | JNum _ | JStr _ => v
  end.

(** Keys that are no array indices and occur once. *)
Definition plain_keys (ks : list string) : bool :=
  forallb (fun k => negb (bool_decide (is_Some (array_index k)))) ks
  && bool_decide (NoDup ks).

(** A document in which every object has plain keys. *)
Fixpoint plain (v : value) : bool :=
  match v with
  | JArr items => forallb plain items
  | JObj fs => plain_keys (map fst fs) && forallb (fun kv => plain (snd kv)) fs
  | JNull | JBool _ | JNum _ | JStr _ => true
  end.

(** [v], followed by [rest], parses back to [canon v]. *)
Definition rebuilds (v : value) : Prop :=
  representable v = true ->
  forall fuel rest, (need v <= fuel)%nat -> boundary rest = true ->
  parse_value fuel (JSON_stringify v +:+ rest) = Returns (canon v, rest).

(** The value a request sends. *)
Definition payload (op : operation) : value :=
  match op with
  | SetMetadata body => body_metadata body
  | UpdateMetadata body => body_value body
  | GetMetadata | DeleteMetadata => JNull
  end.

(** * Properties *)

(** ** The model on concrete inputs *)

Example setPath_nested :
  setPath (JObj []) "a.b.c" (JNum 5)
  = Returns (JObj [("a", JObj [("b", JObj [("c", JNum 5)])])]).
Proof. reflexivity. Qed.

Example stringify_sample :
  JSON_stringify
    (JObj [("theme", JStr "dark"); ("n", JNum (-12));
           ("tags", JArr [JBool true; JNull; JStr (String "010" "a/b\")])])
  = js "{'theme':'dark','n':-12,'tags':[true,null,'\na/b\\']}".
Proof. vm_compute. reflexivity. Qed.

Example parse_sample :
  JSON_parse (js " { 'theme' : 'dark', 'n':-12, 'tags':[true ,null,'A\n/'], 'n': 0 } ")
  = Returns (JObj [("theme", JStr "dark"); ("n", JNum 0);
                   ("tags", JArr [JBool true; JNull; JStr (String "A" (String "010" "/"))])]).
Proof. vm_compute. reflexivity. Qed.

Example parse_empty : JSON_parse "" = Throws SyntaxError.
Proof. reflexivity. Qed.

Example parse_rejects :
  map JSON_parse [ "{oops"; "01"; "[1,]"; js "{'a':1,}"; "nul"; "1 2"; "-"; js "'ab" ]
  = repeat (Throws SyntaxError) 8.
Proof. vm_compute. reflexivity. Qed.

Example parse_abstains :
  map JSON_parse [ "1.5"; "1e3"; "9007199254740993"; js "'\u20ac'" ]
  = repeat Unmodelled 4.
Proof. vm_compute. reflexivity. Qed.

Example parse_index_keys_first :
  JSON_parse (js "{'b':1,'10':2,'9':3,'a':4}")
  = Returns (JObj [("9", JNum 3); ("10", JNum 2); ("b", JNum 1); ("a", JNum 4)]).
Proof. vm_compute. reflexivity. Qed.

Example set_then_set :
  let w0 := fresh {[ "u1" := blank_row ]} in
  let w1 := snd (setMetadata (logged_in "u1")
                   {| body_metadata := JObj [("theme", JStr "dark")];
                      body_merge := Some true |} w0) in
  let w2 := snd (setMetadata (logged_in "u1")
                   {| body_metadata := JObj [("lang", JStr "en")];
                      body_merge := Some true |} w1) in
  users w2 !! "u1" = Some (row (js "{'theme':'dark','lang':'en'}")).
Proof. vm_compute. reflexivity. Qed.

(** ** Own properties under [define] *)

Section Objects.
Implicit Types (fs : list (string * value)) (k : string) (v : value).

Lemma own_replace_same fs k v old :
  own fs k = Some old -> own (replace k v fs) k = Some v.
Proof.
  induction fs as [|[k' v'] fs IH]; simpl; [discriminate|].
  destruct (String.eqb_spec k' k) as [->|Hne]; simpl.
  - intros _. by rewrite String.eqb_refl.
  - intros H. apply String.eqb_neq in Hne. rewrite Hne. auto.
Qed.

Lemma own_replace_other fs k k' v :
  k <> k' -> own (replace k v fs) k' = own fs k'.
Proof.
  intros Hkk'. induction fs as [|[k0 v0] fs IH]; simpl; [done|].
  destruct (String.eqb_spec k0 k) as [->|Hne]; simpl.
  - apply String.eqb_neq in Hkk'. by rewrite Hkk'.
  - by rewrite IH.
Qed.

Lemma own_insert_new_same fs k v :
  own fs k = None -> own (insert_new k v fs) k = Some v.
Proof.
  induction fs as [|[k' v'] fs IH]; simpl.
  - by rewrite String.eqb_refl.
  - destruct (String.eqb_spec k' k) as [->|Hne]; [discriminate|].
    intros H. destruct (comes_before k k'); simpl.
    + by rewrite String.eqb_refl.
    + apply String.eqb_neq in Hne. rewrite Hne. auto.
Qed.

Lemma own_insert_new_other fs k k' v :
  k <> k' -> own (insert_new k v fs) k' = own fs k'.
Proof.
  intros Hkk'. apply String.eqb_neq in Hkk'.
  induction fs as [|[k0 v0] fs IH]; simpl.
  - by rewrite Hkk'.
  - destruct (comes_before k k0); simpl.
    + by rewrite Hkk'.
    + by rewrite IH.
Qed.

Lemma own_define_same fs k v : own (define k v fs) k = Some v.
Proof.
  unfold define. destruct (own fs k) eqn:E.
  - eauto using own_replace_same.
  - by apply own_insert_new_same.
Qed.

Lemma own_define_other fs k k' v :
  k <> k' -> own (define k v fs) k' = own fs k'.
Proof.
  intros. unfold define. destruct (own fs k).
  - by apply own_replace_other.
  - by apply own_insert_new_other.
Qed.

Lemma own_define fs k k' v :
  own (define k v fs) k' = if (k =? k')%string then Some v else own fs k'.
Proof.
  destruct (String.eqb_spec k k') as [->|Hne].
  - apply own_define_same.
  - by apply own_define_other.
Qed.

Lemma own_None_notin fs k : own fs k = None <-> k ∉ fs.*1.
Proof.
  induction fs as [|[k' v'] fs IH]; simpl.
  - split; [intros _; apply not_elem_of_nil|done].
  - rewrite not_elem_of_cons.
    destruct (String.eqb_spec k' k) as [->|Hne]; split.
    + discriminate.
    + intros [? _]. done.
    + intros H. split; [congruence|]. by apply IH.
    + intros [_ H]. by apply IH.
Qed.

(** Copying the properties of a mapping with distinct keys: each key of
    the source wins, every other key of the target stays. *)
Lemma own_spread_fields target fs k :
  NoDup fs.*1 ->
  own (spread target (JObj fs)) k
  = match own fs k with Some v => Some v | None => own target k end.
Proof.
  unfold spread. simpl. revert target.
  induction fs as [|[k' v'] fs IH]; intros target Hnd; simpl; [done|].
  apply NoDup_cons in Hnd as [Hk' Hnd]. simpl in Hk'.
  rewrite IH by done. simpl.
  destruct (String.eqb_spec k' k) as [->|Hne].
  - apply own_None_notin in Hk'. rewrite Hk'. apply own_define_same.
  - destruct (own fs k); [done|]. by apply own_define_other.
Qed.
End Objects.

(** ** The merge of [setMetadata] is shallow *)

(** C6.  For mappings [A] and [B] (their keys distinct, as in every object):
    a key present in both takes the value of [B] as a whole, whatever the
    two values are, nested mappings included, so nothing is merged below the
    top level; a key of [A] that [B] lacks keeps the value it has in [A]. *)
Theorem merge_is_shallow (A B : list (string * value)) :
  NoDup A.*1 -> NoDup B.*1 ->
  (forall k a b, own A k = Some a -> own B k = Some b ->
     member (merge (JObj A) (JObj B)) k = Some b)
  /\ (forall k a, own A k = Some a -> own B k = None ->
     member (merge (JObj A) (JObj B)) k = Some a).
Proof.
  intros HA HB.
  assert (Hm : forall k, member (merge (JObj A) (JObj B)) k
                 = match own B k with Some b => Some b | None => own A k end).
  { intros k. unfold merge, member.
    rewrite own_spread_fields by done.
    destruct (own B k); [done|].
    rewrite own_spread_fields by done. by destruct (own A k). }
  split.
  - intros k a b _ Hb. by rewrite Hm, Hb.
  - intros k a Ha Hb. by rewrite Hm, Hb.
Qed.

Lemma merge_is_shallow_witness :
  let A := [("prefs", JObj [("mail", JBool true); ("sms", JBool true)]);
            ("theme", JStr "dark")] in
  let B := [("prefs", JObj [("mail", JBool false)])] in
  member (merge (JObj A) (JObj B)) "prefs" = Some (JObj [("mail", JBool false)])
  /\ member (merge (JObj A) (JObj B)) "theme" = Some (JStr "dark").
Proof.
  intros A B.
  assert (HA : NoDup A.*1) by (apply (bool_decide_unpack _); vm_compute; reflexivity).
  assert (HB : NoDup B.*1) by (apply (bool_decide_unpack _); vm_compute; reflexivity).
  destruct (merge_is_shallow A B HA HB) as [Hboth Hleft].
  split.
  - apply (Hboth "prefs" (JObj [("mail", JBool true); ("sms", JBool true)]));
      reflexivity.
  - apply (Hleft "theme"); reflexivity.
Defined.

(** ** The walk of [updateMetadata] *)

(** One turn of the loop, with [k] an intermediate segment. *)
Lemma walk_intermediate (current : value) (k k' : string) (rest : list string)
    (v : value) :
  walk current (k :: k' :: rest) v
  = match current with
    | JObj fs =>
        match get fs k with
        | Own child =>
            if truthy child
            then let* child' := walk child (k' :: rest) v in
                 Returns (JObj (define k child' fs))
            else let* child' := walk (JObj []) (k' :: rest) v in
                 Returns (JObj (define k child' fs))
        | Absent =>
            let* child' := walk (JObj []) (k' :: rest) v in
            Returns (JObj (define k child' fs))
        | Inherited => Unmodelled
        end
    | JNull => Throws TypeError
    | JBool _ | JNum _ | JStr _ | JArr _ => Unmodelled
    end.
Proof. reflexivity. Qed.

Lemma walk_fresh (keys : list string) (v : value) :
  keys <> [] -> Forall (fun k => inherited k = false) keys ->
  walk (JObj []) keys v = Returns (nest keys v).
Proof.
  induction keys as [|k [|k' rest] IH]; intros Hne Hk; [done| |].
  - apply Forall_cons in Hk as [Hk _]. simpl. unfold assign. simpl.
    destruct (String.eqb_spec k "__proto__") as [->|_]; [discriminate|done].
  - apply Forall_cons in Hk as [Hk Hrest].
    rewrite walk_intermediate. unfold get. simpl own. rewrite Hk.
    by rewrite IH.
Qed.

(** The loop after [prefix]: the rest of the walk goes on in the mapping
    reached, and its result takes the place of that mapping. *)
Lemma walk_descend (prefix keys : list string) (current v : value)
    (fs : list (string * value)) :
  descend current prefix = Some fs -> keys <> [] ->
  walk current (prefix ++ keys) v
  = (let* r := walk (JObj fs) keys v in Returns (put_at current prefix r)).
Proof.
  revert current. induction prefix as [|k prefix IH]; intros current Hd Hkeys.
  - destruct current; simplify_eq/=. by destruct (walk (JObj fs) keys v).
  - destruct current as [| | | | |fs0]; try discriminate. simpl in Hd.
    destruct (own fs0 k) as [child|] eqn:Hown; [|discriminate].
    destruct (truthy child) eqn:Htruthy; [|discriminate].
    assert (Hnext : exists k' rest, prefix ++ keys = k' :: rest).
    { destruct prefix; [destruct keys|]; [done|by eauto|by eauto]. }
    destruct Hnext as (k' & rest & Hnext).
    change ((k :: prefix) ++ keys) with (k :: (prefix ++ keys)).
    rewrite Hnext, walk_intermediate, <- Hnext. unfold get.
    rewrite Hown, Htruthy, (IH child Hd Hkeys). simpl. rewrite Hown.
    by destruct (walk (JObj fs) keys v).
Qed.

(** A segment that names a property of [Object.prototype] and is not an own
    property takes the walk out of the document.  Here [a] is replaced by a
    fresh mapping, [constructor] is then read through the prototype and gives
    the function [Object], [name] gives its name, a string, and the write of
    [x] on that string raises a TypeError.  The built-in objects are no part
    of this model, which gives no answer there. *)
Example walk_into_prototype :
  setPath (JObj [("a", JNum 0)]) "a.constructor.name.x" (JNum 5) = Unmodelled.
Proof. reflexivity. Qed.




(** ** The endpoints *)

Lemma require_user_invalid (s : option session) :
  caller s = None -> require_user s = throw UNAUTHORIZED.
Proof.
  unfold caller, require_user. destruct (session_user_id s) as [i|]; [|done].
  destruct (i =? "")%string; [done|discriminate].
Qed.

Lemma require_user_valid (s : option session) (uid : string) :
  caller s = Some uid -> require_user s = ret uid.
Proof.
  unfold caller, require_user. destruct (session_user_id s) as [i|]; [|done].
  destruct (i =? "")%string; [discriminate|congruence].
Qed.

(** The handlers of an authenticated caller, unfolded down to the adapter
    calls. *)
Section Authenticated.
Variables (s : option session) (uid : string).
Hypothesis Hs : caller s = Some uid.

Lemma setMetadata_run (body : set_body) (w : world) :
  setMetadata s body w = read_modify_write uid (updated_metadata body) w.
Proof.
  unfold setMetadata, read_modify_write, updated_metadata.
  rewrite (require_user_valid s uid Hs).
  unfold bind, ret, lift, findOne, update. simpl.
  destruct (default true (body_merge body)); [|done].
  destruct (truthy_metadata (users w !! uid)) as [text|]; [|done].
  by destruct (JSON_parse text).
Qed.

Lemma updateMetadata_run (body : update_body) (w : world) :
  updateMetadata s body w = read_modify_write uid (patched_metadata body) w.
Proof.
  unfold updateMetadata, read_modify_write, patched_metadata, load.
  rewrite (require_user_valid s uid Hs).
  unfold bind, ret, lift, throw, findOne, update. simpl.
  destruct (truthy_metadata (users w !! uid)) as [text|].
  - destruct (JSON_parse text); simpl; [|done|done].
    destruct (body_path body); simpl; [|done].
    by destruct (walk _ _ _).
  - simpl. destruct (body_path body); simpl; [|done].
    by destruct (walk _ _ _).
Qed.

Lemma getMetadata_run (w : world) :
  getMetadata s w
  = (let* m := load JNull (users w !! uid) in Returns (JObj [("metadata", m)]),
     record (FindOne uid) w).
Proof.
  unfold getMetadata, load.
  rewrite (require_user_valid s uid Hs).
  unfold bind, ret, lift, findOne. simpl.
  destruct (truthy_metadata (users w !! uid)) as [text|]; [|done].
  by destruct (JSON_parse text).
Qed.

Lemma deleteMetadata_run (w : world) :
  deleteMetadata s w
  = (Returns (JObj [("success", JBool true)]),
     record (Update uid None) (store uid None w)).
Proof.
  unfold deleteMetadata.
  by rewrite (require_user_valid s uid Hs).
Qed.

End Authenticated.

Lemma handle_unauthorized (op : operation) (s : option session) (w : world) :
  caller s = None -> handle op s w = (Throws UNAUTHORIZED, w).
Proof.
  intros H. destruct op; unfold handle, setMetadata, getMetadata,
    updateMetadata, deleteMetadata, bind;
    rewrite (require_user_invalid s H); reflexivity.
Qed.

(** C5.  Each of the four operations, called without a valid caller identity
    (no session, no user, no id, or an empty id), throws UNAUTHORIZED and
    leaves the world as it was: the log of adapter calls gains no entry, so
    neither [findOne] nor [update] has been called. *)
Theorem unauthorized_without_storage_access
    (op : operation) (s : option session) (w : world) :
  caller s = None ->
  handle op s w = (Throws UNAUTHORIZED, w)
  /\ calls (snd (handle op s w)) = calls w.
Proof. intros H. by rewrite (handle_unauthorized op s w H). Qed.

Lemma unauthorized_without_storage_access_witness :
  let w := fresh {[ "u1" := row "{}" ]} in
  let anonymous := Some {| user := Some {| id := Some "" |} |} in
  handle (UpdateMetadata {| body_path := Some "a"; body_value := JNum 1 |})
         anonymous w = (Throws UNAUTHORIZED, w)
  /\ handle DeleteMetadata None w = (Throws UNAUTHORIZED, w)
  /\ calls w = [].
Proof.
  intros w anonymous. split; [|split].
  - apply (unauthorized_without_storage_access _ anonymous w). reflexivity.
  - apply (unauthorized_without_storage_access DeleteMetadata None w). reflexivity.
  - reflexivity.
Defined.

Lemma truthy_metadata_no_metadata (u : option user_row) :
  u ≫= metadata = None -> truthy_metadata u = None.
Proof. destruct u as [[[text|]]|]; simpl; [discriminate|done|done]. Qed.

Lemma users_store_same (uid : string) (data : option string) (w : world) :
  users (store uid data w) !! uid
  = (fun _ => {| metadata := data |}) <$> users w !! uid.
Proof. unfold store. simpl. apply lookup_alter_eq. Qed.

(** C9.  For an authenticated caller: with no stored metadata (no row, or a
    null column) [getMetadata] answers [{ metadata: null }]; and whatever is
    stored, [deleteMetadata] succeeds and a [getMetadata] that follows it
    answers [{ metadata: null }]. *)
Theorem get_null_when_nothing_stored
    (s : option session) (uid : string) (w : world) :
  caller s = Some uid ->
  (users w !! uid ≫= metadata = None ->
     getMetadata s w
     = (Returns (JObj [("metadata", JNull)]), record (FindOne uid) w))
  /\ (fst (deleteMetadata s w) = Returns (JObj [("success", JBool true)])
      /\ fst (getMetadata s (snd (deleteMetadata s w)))
         = Returns (JObj [("metadata", JNull)])).
Proof.
  intros Hs. split; [|split].
  - intros Hnone. rewrite (getMetadata_run s uid Hs w).
    unfold load. by rewrite truthy_metadata_no_metadata.
  - by rewrite (deleteMetadata_run s uid Hs w).
  - rewrite (deleteMetadata_run s uid Hs w).
    unfold snd at 1. rewrite (getMetadata_run s uid Hs _).
    unfold load. rewrite truthy_metadata_no_metadata; [done|].
    change (users (record (Update uid None) (store uid None w)))
      with (users (store uid None w)).
    rewrite users_store_same. by destruct (users w !! uid).
Qed.

Lemma get_null_when_nothing_stored_witness :
  let w := fresh {[ "u1" := row (js "{'theme':'dark'}"); "u2" := blank_row ]} in
  getMetadata (logged_in "u2") w
  = (Returns (JObj [("metadata", JNull)]), record (FindOne "u2") w)
  /\ fst (getMetadata (logged_in "u1") w)
     = Returns (JObj [("metadata", JObj [("theme", JStr "dark")])])
  /\ fst (getMetadata (logged_in "u1") (snd (deleteMetadata (logged_in "u1") w)))
     = Returns (JObj [("metadata", JNull)]).
Proof.
  intros w. split; [|split].
  - apply (get_null_when_nothing_stored (logged_in "u2") "u2" w); reflexivity.
  - vm_compute. reflexivity.
  - apply (get_null_when_nothing_stored (logged_in "u1") "u1" w). reflexivity.
Defined.

(** C7.  [setMetadata] in merge mode (asked for, or by default), for a caller
    with no stored metadata (no row, or a null column): the request's
    metadata is returned as it is and its serialisation is the value
    written, exactly as in replace mode. *)
Theorem merge_without_existing_is_replace
    (s : option session) (uid : string) (m : value) (w : world) :
  caller s = Some uid -> users w !! uid ≫= metadata = None ->
  let text := Some (JSON_stringify m) in
  let merging := {| body_metadata := m; body_merge := Some true |} in
  let default_ := {| body_metadata := m; body_merge := None |} in
  let replacing := {| body_metadata := m; body_merge := Some false |} in
  setMetadata s merging w
    = (Returns (respond m),
       record (Update uid text) (store uid text (record (FindOne uid) w)))
  /\ setMetadata s merging w = setMetadata s replacing w
  /\ setMetadata s default_ w = setMetadata s replacing w
  /\ (forall r, users w !! uid = Some r ->
        users (snd (setMetadata s merging w)) !! uid = Some {| metadata := text |}).
Proof.
  intros Hs Hnone text merging default_ replacing.
  assert (Hm : setMetadata s merging w
            = (Returns (respond m),
               record (Update uid text) (store uid text (record (FindOne uid) w)))).
  { rewrite (setMetadata_run s uid Hs _ w).
    unfold read_modify_write, updated_metadata. simpl.
    by rewrite truthy_metadata_no_metadata. }
  assert (Hr : setMetadata s replacing w
            = (Returns (respond m),
               record (Update uid text) (store uid text (record (FindOne uid) w)))).
  { by rewrite (setMetadata_run s uid Hs _ w). }
  split; [exact Hm|]. split; [by rewrite Hm, Hr|]. split.
  - rewrite Hr, (setMetadata_run s uid Hs _ w).
    unfold read_modify_write, updated_metadata. simpl.
    by rewrite truthy_metadata_no_metadata.
  - intros r Hrow. rewrite Hm. simpl.
    change (users (store uid text (record (FindOne uid) w)) !! uid
            = Some {| metadata := text |}).
    rewrite users_store_same. simpl. by rewrite Hrow.
Qed.

Lemma merge_without_existing_is_replace_witness :
  let w := fresh {[ "u1" := blank_row ]} in
  let m := JObj [("theme", JStr "dark")] in
  setMetadata (logged_in "u1") {| body_metadata := m; body_merge := Some true |} w
  = setMetadata (logged_in "u1") {| body_metadata := m; body_merge := Some false |} w
  /\ users (snd (setMetadata (logged_in "u1")
                   {| body_metadata := m; body_merge := Some true |} w)) !! "u1"
     = Some (row (js "{'theme':'dark'}")).
Proof.
  intros w m.
  destruct (merge_without_existing_is_replace (logged_in "u1") "u1" m w
              eq_refl eq_refl) as (_ & Hsame & _ & Hrow).
  split; [exact Hsame|]. apply (Hrow blank_row). reflexivity.
Defined.

(** The handlers see the row only through the truthiness of its column. *)
Lemma read_modify_write_truthy (uid : string)
    (f : option user_row -> outcome value) (w w0 : world) :
  f (users w !! uid) = f (users w0 !! uid) -> calls w = calls w0 ->
  fst (read_modify_write uid f w) = fst (read_modify_write uid f w0)
  /\ calls (snd (read_modify_write uid f w))
     = calls (snd (read_modify_write uid f w0)).
Proof.
  intros Hf Hc. unfold read_modify_write. rewrite Hf.
  destruct (f (users w0 !! uid)); simpl; by rewrite Hc.
Qed.

(** C10.  A row whose column holds the empty string is handled by each of
    the four operations as the same row with a null column: same response or
    error and same adapter calls, written value included.  [JSON.parse] is
    never given the empty string (it would throw): [getMetadata] answers
    [{ metadata: null }], [setMetadata] in merge mode does what replace mode
    does, and [updateMetadata] walks from the empty mapping. *)
Theorem empty_string_column_is_no_metadata
    (op : operation) (s : option session) (uid : string) (w : world) :
  caller s = Some uid -> users w !! uid = Some (row "") ->
  let w0 := {| users := <[uid := blank_row]> (users w); calls := calls w |} in
  (fst (handle op s w) = fst (handle op s w0)
   /\ calls (snd (handle op s w)) = calls (snd (handle op s w0)))
  /\ JSON_parse "" = Throws SyntaxError
  /\ getMetadata s w
     = (Returns (JObj [("metadata", JNull)]), record (FindOne uid) w)
  /\ (forall m,
        setMetadata s {| body_metadata := m; body_merge := Some true |} w
        = setMetadata s {| body_metadata := m; body_merge := Some false |} w)
  /\ (forall path v,
        fst (updateMetadata s {| body_path := Some path; body_value := v |} w)
        = (let* m' := setPath (JObj []) path v in Returns (respond m'))).
Proof.
  intros Hs Hrow w0.
  assert (Hw0 : users w0 !! uid = Some blank_row) by apply lookup_insert_eq.
  split; [|split; [reflexivity|split; [|split]]].
  - destruct op as [body| |body|]; unfold handle.
    + rewrite !(setMetadata_run s uid Hs _ _).
      apply read_modify_write_truthy; [|done].
      unfold updated_metadata. by rewrite Hrow, Hw0.
    + rewrite !(getMetadata_run s uid Hs _). rewrite Hrow, Hw0. done.
    + rewrite !(updateMetadata_run s uid Hs _ _).
      apply read_modify_write_truthy; [|done].
      unfold patched_metadata, load. by rewrite Hrow, Hw0.
    + by rewrite !(deleteMetadata_run s uid Hs _).
  - rewrite (getMetadata_run s uid Hs w). by rewrite Hrow.
  - intros m. rewrite !(setMetadata_run s uid Hs _ w).
    unfold read_modify_write, updated_metadata. by rewrite Hrow.
  - intros path v. rewrite (updateMetadata_run s uid Hs _ w).
    unfold read_modify_write, patched_metadata, load, setPath.
    rewrite Hrow. simpl.
    by destruct (walk (JObj []) (split "." path) v).
Qed.

Lemma empty_string_column_is_no_metadata_witness :
  let w := fresh {[ "u1" := row "" ]} in
  getMetadata (logged_in "u1") w
  = (Returns (JObj [("metadata", JNull)]), record (FindOne "u1") w)
  /\ fst (updateMetadata (logged_in "u1")
            {| body_path := Some "a.b"; body_value := JNum 1 |} w)
     = Returns (respond (JObj [("a", JObj [("b", JNum 1)])])).
Proof.
  intros w.
  destruct (empty_string_column_is_no_metadata GetMetadata (logged_in "u1") "u1" w
              eq_refl eq_refl) as (_ & _ & Hget & _ & Hupdate).
  split; [exact Hget|]. rewrite Hupdate. reflexivity.
Defined.

(** ** Adapter calls *)

(** What a completed request has done to the world. *)
Lemma handle_returns (op : operation) (s : option session) (w w' : world)
    (resp : value) :
  handle op s w = (Returns resp, w') ->
  exists uid, caller s = Some uid /\
    match op with
    | SetMetadata _ | UpdateMetadata _ =>
        exists text, w' = record (Update uid (Some text))
                            (store uid (Some text) (record (FindOne uid) w))
    | GetMetadata => w' = record (FindOne uid) w
    | DeleteMetadata => w' = record (Update uid None) (store uid None w)
    end.
Proof.
  intros H. destruct (caller s) as [uid|] eqn:Hs.
  2:{ rewrite handle_unauthorized in H by done. discriminate. }
  exists uid. split; [done|].
  destruct op as [body| |body|]; unfold handle in H.
  - rewrite (setMetadata_run s uid Hs _ _) in H. unfold read_modify_write in H.
    destruct (updated_metadata body (users w !! uid)); inversion H; eauto.
  - rewrite (getMetadata_run s uid Hs _) in H. by inversion H.
  - rewrite (updateMetadata_run s uid Hs _ _) in H. unfold read_modify_write in H.
    destruct (patched_metadata body (users w !! uid)); inversion H; eauto.
  - rewrite (deleteMetadata_run s uid Hs _) in H. by inversion H.
Qed.

(** What a request that threw has done to the world: at most the read. *)
Lemma handle_throws (op : operation) (s : option session) (w w' : world)
    (e : error) :
  handle op s w = (Throws e, w') ->
  w' = w \/ exists uid, caller s = Some uid /\ w' = record (FindOne uid) w.
Proof.
  intros H. destruct (caller s) as [uid|] eqn:Hs.
  2:{ rewrite handle_unauthorized in H by done.
      left. by inversion H. }
  right. exists uid. split; [done|].
  destruct op as [body| |body|]; unfold handle in H.
  - rewrite (setMetadata_run s uid Hs _ _) in H. unfold read_modify_write in H.
    destruct (updated_metadata body (users w !! uid)); by inversion H.
  - rewrite (getMetadata_run s uid Hs _) in H. by inversion H.
  - rewrite (updateMetadata_run s uid Hs _ _) in H. unfold read_modify_write in H.
    destruct (patched_metadata body (users w !! uid)); by inversion H.
  - rewrite (deleteMetadata_run s uid Hs _) in H. by inversion H.
Qed.

(** C3, as the code has it.  A request from an authenticated caller that
    completes has made these adapter calls, each on the row of the caller and
    no other row touched: [setMetadata] and [updateMetadata] one [findOne]
    then one [update]; [deleteMetadata] one [update] and no [findOne]
    ([getMetadata]: one [findOne]). *)
Theorem completed_request_calls
    (op : operation) (s : option session) (w w' : world) (resp : value) :
  handle op s w = (Returns resp, w') ->
  exists uid, caller s = Some uid
    /\ match op with
       | SetMetadata _ | UpdateMetadata _ =>
           exists text, calls w' = calls w ++ [FindOne uid; Update uid (Some text)]
       | GetMetadata => calls w' = calls w ++ [FindOne uid]
       | DeleteMetadata => calls w' = calls w ++ [Update uid None]
       end
    /\ (forall other, other <> uid -> users w' !! other = users w !! other).
Proof.
  intros H. destruct (handle_returns op s w w' resp H) as (uid & Hs & Hw').
  exists uid. split; [done|].
  destruct op as [body| |body|].
  - destruct Hw' as [text ->]. simpl. split.
    + exists text. by rewrite <- app_assoc.
    + intros other Hne. by apply lookup_alter_ne.
  - subst w'. simpl. done.
  - destruct Hw' as [text ->]. simpl. split.
    + exists text. by rewrite <- app_assoc.
    + intros other Hne. by apply lookup_alter_ne.
  - subst w'. simpl. split; [done|].
    intros other Hne. by apply lookup_alter_ne.
Qed.

Lemma completed_request_calls_witness :
  let w := fresh {[ "u1" := row (js "{'a':1}"); "u2" := row (js "{'b':2}") ]} in
  let body := {| body_path := Some "c"; body_value := JBool true |} in
  exists uid, caller (logged_in "u1") = Some uid
    /\ (exists text, calls (snd (handle (UpdateMetadata body) (logged_in "u1") w))
                     = calls w ++ [FindOne uid; Update uid (Some text)])
    /\ (forall other, other <> uid ->
          users (snd (handle (UpdateMetadata body) (logged_in "u1") w)) !! other
          = users w !! other).
Proof.
  intros w body.
  apply (completed_request_calls (UpdateMetadata body) (logged_in "u1") w _
           (respond (JObj [("a", JNum 1); ("c", JBool true)]))).
  vm_compute. reflexivity.
Defined.

(** C3, as the spec states it, fails: [deleteMetadata] reads nothing. *)
Lemma deleteMetadata_makes_no_read :
  let w := fresh {[ "u1" := row (js "{'a':1}") ]} in
  fst (deleteMetadata (logged_in "u1") w) = Returns (JObj [("success", JBool true)])
  /\ calls (snd (deleteMetadata (logged_in "u1") w)) = [Update "u1" None]
  /\ length (filter (fun c => negb (is_write c))
               (calls (snd (deleteMetadata (logged_in "u1") w)))) <> 1%nat.
Proof. intros w. split; [|split]; vm_compute; [reflexivity|reflexivity|discriminate]. Qed.

(** ** Errors *)

(** C8, as the code has it.  A request that throws has written nothing: the
    user table is as before and the log has gained no [update]; a request
    that returns (other than [getMetadata]) has ended its adapter calls with
    its [update].  In particular,
    when the column of the caller holds a non-empty string that [JSON.parse]
    rejects, [setMetadata] in merge mode and [updateMetadata] throw the
    SyntaxError right after the read, and the column keeps its value. *)
Theorem error_means_no_write (op : operation) (s : option session) (w : world) :
  (forall e w', handle op s w = (Throws e, w') ->
     users w' = users w
     /\ filter is_write (calls w') = filter is_write (calls w))
  /\ (forall resp w', handle op s w = (Returns resp, w') ->
        op <> GetMetadata ->
        exists before uid data, calls w' = before ++ [Update uid data])
  /\ (forall uid text,
        caller s = Some uid -> users w !! uid = Some (row text) ->
        text <> "" -> JSON_parse text = Throws SyntaxError ->
        (forall m merge_,
           merge_ <> Some false ->
           setMetadata s {| body_metadata := m; body_merge := merge_ |} w
           = (Throws SyntaxError, record (FindOne uid) w))
        /\ (forall body,
              updateMetadata s body w = (Throws SyntaxError, record (FindOne uid) w))
        /\ users (record (FindOne uid) w) !! uid = Some (row text)).
Proof.
  split; [|split].
  - intros e w' H.
    destruct (handle_throws op s w w' e H) as [->|(uid & _ & ->)]; [done|].
    simpl. split; [done|].
    rewrite filter_app. simpl. by rewrite app_nil_r.
  - intros resp w' H Hop.
    destruct (handle_returns op s w w' resp H) as (uid & _ & Hw').
    destruct op as [body| |body|]; [| done | |].
    + destruct Hw' as [text ->]. by exists (calls w ++ [FindOne uid]), uid, (Some text).
    + destruct Hw' as [text ->]. by exists (calls w ++ [FindOne uid]), uid, (Some text).
    + subst w'. by exists (calls w), uid, None.
  - intros uid text Hs Hrow Hne Hbad.
    assert (Ht : truthy_metadata (users w !! uid) = Some text).
    { rewrite Hrow. simpl. apply String.eqb_neq in Hne. by rewrite Hne. }
    split; [|split].
    + intros m merge_ Hmerge. rewrite (setMetadata_run s uid Hs _ w).
      unfold read_modify_write, updated_metadata. simpl.
      destruct merge_ as [[]|]; [| done |]; simpl; by rewrite Ht, Hbad.
    + intros body. rewrite (updateMetadata_run s uid Hs _ w).
      unfold read_modify_write, patched_metadata, load.
      by rewrite Ht, Hbad.
    + exact Hrow.
Qed.

Lemma error_means_no_write_witness :
  let w := fresh {[ "u1" := row "{oops" ]} in
  let body := {| body_path := Some "a"; body_value := JNum 1 |} in
  (users (snd (handle (UpdateMetadata body) (logged_in "u1") w)) = users w
   /\ filter is_write (calls (snd (handle (UpdateMetadata body) (logged_in "u1") w)))
      = filter is_write (calls w))
  /\ setMetadata (logged_in "u1")
       {| body_metadata := JObj []; body_merge := Some true |} w
     = (Throws SyntaxError, record (FindOne "u1") w)
  /\ updateMetadata (logged_in "u1") body w
     = (Throws SyntaxError, record (FindOne "u1") w).
Proof.
  intros w body.
  destruct (error_means_no_write (UpdateMetadata body) (logged_in "u1") w)
    as (Hthrow & _ & Hparse).
  split.
  - apply (Hthrow SyntaxError). vm_compute. reflexivity.
  - destruct (Hparse "u1" "{oops") as (Hset & Hupdate & _);
      [reflexivity|reflexivity|discriminate|reflexivity|].
    split; [apply Hset; discriminate|apply Hupdate].
Defined.

(** C8, as the spec states it, fails on the empty string: it is present, it
    is not valid JSON, and yet [updateMetadata] and [setMetadata] in merge
    mode complete and overwrite it. *)
Lemma empty_string_column_is_overwritten :
  let w := fresh {[ "u1" := row "" ]} in
  let patch := {| body_path := Some "a"; body_value := JNum 1 |} in
  let merging := {| body_metadata := JObj [("a", JNum 1)]; body_merge := Some true |} in
  users w !! "u1" = Some {| metadata := Some "" |}
  /\ JSON_parse "" = Throws SyntaxError
  /\ fst (updateMetadata (logged_in "u1") patch w)
     = Returns (respond (JObj [("a", JNum 1)]))
  /\ users (snd (updateMetadata (logged_in "u1") patch w)) !! "u1"
     = Some (row (js "{'a':1}"))
  /\ fst (setMetadata (logged_in "u1") merging w)
     = Returns (respond (JObj [("a", JNum 1)]))
  /\ users (snd (setMetadata (logged_in "u1") merging w)) !! "u1"
     = Some (row (js "{'a':1}")).
Proof. intros w patch merging. repeat split; vm_compute; reflexivity. Qed.

(** C2, as the code has it.  For an authenticated caller whose column is
    falsy or deserialises to a mapping [fs]: a request without [path] ends in
    a TypeError (the only errors of the plugin are UNAUTHORIZED and what the
    language throws) after the read and before any write; a request whose
    [path] is the empty string does not fail, it sets the key named by the
    empty string at the top of the mapping, writes and answers. *)
Theorem update_with_missing_or_empty_path
    (s : option session) (uid : string) (v : value) (w : world)
    (fs : list (string * value)) :
  caller s = Some uid -> load (JObj []) (users w !! uid) = Returns (JObj fs) ->
  updateMetadata s {| body_path := None; body_value := v |} w
    = (Throws TypeError, record (FindOne uid) w)
  /\ (let m' := JObj (define "" v fs) in
      let text := Some (JSON_stringify m') in
      updateMetadata s {| body_path := Some ""; body_value := v |} w
      = (Returns (respond m'),
         record (Update uid text) (store uid text (record (FindOne uid) w)))
      /\ member m' "" = Some v).
Proof.
  intros Hs Hload. split; [|split].
  - rewrite (updateMetadata_run s uid Hs _ w).
    unfold read_modify_write, patched_metadata. by rewrite Hload.
  - rewrite (updateMetadata_run s uid Hs _ w).
    unfold read_modify_write, patched_metadata. rewrite Hload. simpl.
    unfold assign. by destruct (own fs "").
  - simpl. apply own_define_same.
Qed.

Lemma update_with_missing_or_empty_path_witness :
  let w := fresh {[ "u1" := row (js "{'a':1}") ]} in
  updateMetadata (logged_in "u1") {| body_path := None; body_value := JNum 2 |} w
  = (Throws TypeError, record (FindOne "u1") w)
  /\ fst (updateMetadata (logged_in "u1")
            {| body_path := Some ""; body_value := JNum 2 |} w)
     = Returns (respond (JObj [("a", JNum 1); ("", JNum 2)])).
Proof.
  intros w.
  destruct (update_with_missing_or_empty_path (logged_in "u1") "u1" (JNum 2) w
              [("a", JNum 1)] eq_refl) as [Hnone [Hempty _]].
  - vm_compute. reflexivity.
  - split; [exact Hnone|]. rewrite Hempty. reflexivity.
Defined.

(** C2, as the spec states it, fails: with an empty [path] the request
    succeeds and creates the key named by the empty string; without [path]
    the error is a TypeError thrown by [path.split]. *)
Lemma empty_path_creates_empty_key :
  let w := fresh {[ "u1" := blank_row ]} in
  let body := {| body_path := Some ""; body_value := JNum 1 |} in
  fst (updateMetadata (logged_in "u1") body w)
  = Returns (respond (JObj [("", JNum 1)]))
  /\ users (snd (updateMetadata (logged_in "u1") body w)) !! "u1"
     = Some (row (js "{'':1}"))
  /\ (forall e, fst (updateMetadata (logged_in "u1") body w) <> Throws e).
Proof.
  intros w body. split; [|split].
  - vm_compute. reflexivity.
  - vm_compute. reflexivity.
  - intros e. vm_compute. discriminate.
Qed.

(** ** Serialise, then parse *)

Lemma string_app_nil (b : string) : "" +:+ b = b.
Proof. reflexivity. Qed.

Lemma string_app_cons (x : ascii) (a b : string) :
  String x a +:+ b = String x (a +:+ b).
Proof. reflexivity. Qed.

Ltac string_normal :=
  repeat (rewrite string_app_nil || rewrite string_app_cons).

Lemma string_app_assoc (a b c : string) : (a +:+ b) +:+ c = a +:+ (b +:+ c).
Proof.
  induction a as [|x a IH]; [done|].
  by rewrite !string_app_cons, IH.
Qed.

Lemma string_app_length (a b : string) :
  String.length (a +:+ b) = (String.length a + String.length b)%nat.
Proof.
  induction a as [|x a IH]; [done|].
  rewrite string_app_cons. simpl. by rewrite IH.
Qed.

Lemma scan_string_escape (c : ascii) (rest : string) (r : string * string) :
  scan_string rest = Returns r ->
  scan_string (escape c +:+ rest) = Returns (String c (fst r), snd r).
Proof.
  intros H. destruct r as [str rest'].
  destruct c as [[] [] [] [] [] [] [] []];
    match goal with
    | |- context [escape ?c] =>
        let e := eval vm_compute in (escape c) in change (escape c) with e
    end;
    rewrite ?string_app_cons, string_app_nil; simpl; rewrite H; reflexivity.
Qed.

Lemma scan_string_escaped (s rest : string) :
  scan_string (escaped s +:+ String dquote rest) = Returns (s, rest).
Proof.
  induction s as [|c s IH]; [done|].
  simpl escaped. rewrite string_app_assoc.
  by rewrite (scan_string_escape c _ _ IH).
Qed.

Lemma boundary_not_digit (c : ascii) (s : string) :
  boundary (String c s) = true ->
  is_digit c = false /\ fraction_follows (String c s) = false
  /\ is_ws c = false.
Proof.
  simpl. destruct c as [[] [] [] [] [] [] [] []]; vm_compute; intros; try done.
Qed.

Lemma scan_digits_stop (n : N) (rest : string) :
  boundary rest = true -> scan_digits n rest = (n, rest).
Proof.
  destruct rest as [|c rest]; [done|]. intros H.
  apply boundary_not_digit in H as (H & _ & _). simpl. by rewrite H.
Qed.

Lemma pretty_N_char_digit (d : N) :
  (d < 10)%N ->
  is_digit (pretty_N_char d) = true /\ digit_value (pretty_N_char d) = d.
Proof.
  intros H.
  assert (d = 0 \/ d = 1 \/ d = 2 \/ d = 3 \/ d = 4 \/ d = 5 \/ d = 6
          \/ d = 7 \/ d = 8 \/ d = 9)%N as Hd by lia.
  repeat (destruct Hd as [->|Hd]; [by vm_compute|]). by subst.
Qed.

Lemma pretty_N_go_app (x : N) (s rest : string) :
  pretty_N_go x s +:+ rest = pretty_N_go x (s +:+ rest).
Proof.
  revert s. induction (N.lt_wf_0 x) as [x _ IH]. intros s.
  destruct (decide (0 < x)%N) as [Hx|Hx].
  - rewrite !(pretty_N_go_step x) by done.
    rewrite IH; [done|]. by apply N.div_lt.
  - assert (x = 0%N) as -> by lia. by rewrite !pretty_N_go_0.
Qed.

Lemma pretty_N_go_head (x : N) (s : string) :
  (0 < x)%N ->
  exists d s', (1 <= d <= 9)%N /\ pretty_N_go x s = String (pretty_N_char d) s'.
Proof.
  revert s. induction (N.lt_wf_0 x) as [x _ IH]. intros s Hx.
  rewrite pretty_N_go_step by done.
  destruct (decide (x < 10)%N) as [Hsmall|Hbig].
  - rewrite N.div_small, pretty_N_go_0 by done.
    rewrite N.mod_small by done. exists x, s. split; [lia|done].
  - apply IH.
    + by apply N.div_lt.
    + apply N.div_str_pos. lia.
Qed.

Lemma scan_digits_pretty (x : N) (s : string) :
  scan_digits 0 (pretty_N_go x s) = scan_digits x s.
Proof.
  revert s. induction (N.lt_wf_0 x) as [x _ IH]. intros s.
  destruct (decide (0 < x)%N) as [Hx|Hx].
  - rewrite pretty_N_go_step by done.
    rewrite IH by (by apply N.div_lt).
    destruct (pretty_N_char_digit (x `mod` 10)) as [Hd Hv].
    { by apply N.mod_lt. }
    simpl. rewrite Hd, Hv.
    f_equal. rewrite (N.div_mod x 10) at 3 by done. lia.
  - assert (x = 0%N) as -> by lia. by rewrite pretty_N_go_0.
Qed.

Lemma scan_number_pretty (negative : bool) (x : N) (rest : string) :
  (0 < x <= max_exact)%N -> boundary rest = true ->
  scan_number negative (pretty_N_go x rest)
  = Returns (JNum (if negative then - Z.of_N x else Z.of_N x), rest).
Proof.
  intros [Hpos Hmax] Hrest.
  destruct (pretty_N_go_head x rest Hpos) as (d & s' & Hd & Hhead).
  pose proof (scan_digits_pretty x rest) as Hscan.
  rewrite (scan_digits_stop x rest Hrest) in Hscan.
  rewrite Hhead in *.
  assert (Hfrac : fraction_follows rest = false).
  { destruct rest as [|c rest]; [done|].
    by apply boundary_not_digit in Hrest as (_ & ? & _). }
  assert (Hbig : (max_exact <? x)%N = false) by (apply N.ltb_ge; lia).
  unfold scan_number. rewrite Hscan, Hfrac, Hbig.
  assert (d = 1 \/ d = 2 \/ d = 3 \/ d = 4 \/ d = 5 \/ d = 6
          \/ d = 7 \/ d = 8 \/ d = 9)%N as Hcases by lia.
  repeat (destruct Hcases as [->|Hcases]; [reflexivity|]). by subst.
Qed.

Lemma parse_value_number (fuel : nat) (z : Z) (rest : string) :
  representable (JNum z) = true -> boundary rest = true ->
  parse_value (S fuel) (pretty z +:+ rest) = Returns (JNum z, rest).
Proof.
  unfold representable. intros Hz Hrest. apply Z.leb_le in Hz.
  destruct z as [|p|p]; unfold pretty, pretty_Z.
  - rewrite string_app_cons, string_app_nil. simpl.
    destruct rest as [|c rest]; [done|].
    apply boundary_not_digit in Hrest as (Hd & Hf & _).
    by rewrite Hd, Hf.
  - unfold pretty, pretty_positive, pretty, pretty_N.
    rewrite decide_False by done.
    rewrite pretty_N_go_app, string_app_nil.
    assert (Hx : (0 < N.pos p <= max_exact)%N) by lia.
    pose proof (scan_number_pretty false _ rest Hx Hrest) as Hnum.
    destruct (pretty_N_go_head (N.pos p) rest) as (d & s' & Hd & Hhead); [lia|].
    rewrite Hhead in *.
    assert (d = 1 \/ d = 2 \/ d = 3 \/ d = 4 \/ d = 5 \/ d = 6
            \/ d = 7 \/ d = 8 \/ d = 9)%N as Hcases by lia.
    repeat (destruct Hcases as [->|Hcases]; [exact Hnum|]). subst. exact Hnum.
  - unfold pretty, pretty_positive, pretty, pretty_N.
    rewrite decide_False by done.
    rewrite string_app_assoc, string_app_cons, string_app_nil.
    rewrite pretty_N_go_app, string_app_nil.
    assert (Hx : (0 < N.pos p <= max_exact)%N) by lia.
    exact (scan_number_pretty true _ rest Hx Hrest).
Qed.

Lemma value_ind (P : value -> Prop) :
  P JNull -> (forall b, P (JBool b)) -> (forall n, P (JNum n)) ->
  (forall s, P (JStr s)) ->
  (forall items, Forall P items -> P (JArr items)) ->
  (forall fs, Forall (fun kv => P (snd kv)) fs -> P (JObj fs)) ->
  forall v, P v.
Proof.
  intros Hnull Hbool Hnum Hstr Harr Hobj.
  fix IH 1. intros [| b | n | s | items | fs].
  - exact Hnull.
  - apply Hbool.
  - apply Hnum.
  - apply Hstr.
  - apply Harr. induction items as [|x items IHitems]; constructor.
    + apply IH.
    + exact IHitems.
  - apply Hobj. induction fs as [|[k x] fs IHfs]; constructor.
    + apply IH.
    + exact IHfs.
Qed.

Lemma parse_value_S (fuel : nat) (s : string) :
  parse_value (S fuel) s
  = match skip_ws s with
    | EmptyString => Throws SyntaxError
    | String c s' =>
        if Ascii.eqb c "{" then
          match skip_ws s' with
          | String c1 s1 =>
              if Ascii.eqb c1 "}" then Returns (JObj [], s1)
              else let* (fs, rest) := parse_members fuel [] (String c1 s1) in
                   Returns (JObj fs, rest)
          | EmptyString => Throws SyntaxError
          end
        else if Ascii.eqb c "[" then
          match skip_ws s' with
          | String c1 s1 =>
              if Ascii.eqb c1 "]" then Returns (JArr [], s1)
              else let* (items, rest) := parse_elements fuel (String c1 s1) in
                   Returns (JArr items, rest)
          | EmptyString => Throws SyntaxError
          end
        else if Ascii.eqb c dquote then
          let* (str, rest) := scan_string s' in Returns (JStr str, rest)
        else if Ascii.eqb c "-" then scan_number true s'
        else if is_digit c then scan_number false (String c s')
        else if Ascii.eqb c "n" then scan_literal "null" JNull (String c s')
        else if Ascii.eqb c "t" then scan_literal "true" (JBool true) (String c s')
        else if Ascii.eqb c "f" then scan_literal "false" (JBool false) (String c s')
        else Throws SyntaxError
    end.
Proof. reflexivity. Qed.

Lemma parse_elements_S (fuel : nat) (s : string) :
  parse_elements (S fuel) s
  = (let* (x, rest) := parse_value fuel s in
     match skip_ws rest with
     | EmptyString => Throws SyntaxError
     | String c rest' =>
         if Ascii.eqb c "," then
           let* (xs, rest'') := parse_elements fuel rest' in
           Returns (x :: xs, rest'')
         else if Ascii.eqb c "]" then Returns ([x], rest')
         else Throws SyntaxError
     end).
Proof. reflexivity. Qed.

Lemma parse_members_S (fuel : nat) (acc : list (string * value)) (s : string) :
  parse_members (S fuel) acc s
  = match skip_ws s with
    | EmptyString => Throws SyntaxError
    | String c s1 =>
        if Ascii.eqb c dquote then
          let* (k, s2) := scan_string s1 in
          match skip_ws s2 with
          | EmptyString => Throws SyntaxError
          | String c2 s3 =>
              if Ascii.eqb c2 ":" then
                let* (x, s4) := parse_value fuel s3 in
                match skip_ws s4 with
                | EmptyString => Throws SyntaxError
                | String c4 s5 =>
                    if Ascii.eqb c4 "," then parse_members fuel (define k x acc) s5
                    else if Ascii.eqb c4 "}" then Returns (define k x acc, s5)
                    else Throws SyntaxError
                end
              else Throws SyntaxError
          end
        else Throws SyntaxError
    end.
Proof. reflexivity. Qed.

Lemma quote_app (k rest : string) :
  quote k +:+ rest = String dquote (escaped k +:+ String dquote rest).
Proof.
  unfold quote. by rewrite string_app_cons, string_app_assoc, string_app_cons.
Qed.

Lemma stringify_opens_value (v : value) (rest : string) :
  opens_value (JSON_stringify v +:+ rest).
Proof.
  destruct v as [| [] | [|p|p] | s | items | fs]; simpl JSON_stringify;
    try (eexists _, _; split; [reflexivity|by vm_compute]).
  - unfold pretty, pretty_Z, pretty, pretty_positive, pretty, pretty_N.
    rewrite decide_False by done.
    destruct (pretty_N_go_head (N.pos p) "") as (d & s' & Hd & ->); [lia|].
    exists (pretty_N_char d), (s' +:+ rest). split; [done|].
    assert (d = 1 \/ d = 2 \/ d = 3 \/ d = 4 \/ d = 5 \/ d = 6
            \/ d = 7 \/ d = 8 \/ d = 9)%N as Hcases by lia.
    repeat (destruct Hcases as [->|Hcases]; [by vm_compute|]). subst. by vm_compute.
Qed.

Lemma stringify_elements_cons (first : bool) (x : value) (xs : list value) :
  stringify_elements JSON_stringify first (x :: xs)
  = (if first then "" else ",") +:+ JSON_stringify x
    +:+ stringify_elements JSON_stringify false xs.
Proof. reflexivity. Qed.

Lemma stringify_members_cons (first : bool) (k : string) (x : value)
    (fs : list (string * value)) :
  stringify_members JSON_stringify first ((k, x) :: fs)
  = (if first then "" else ",") +:+ quote k +:+ ":" +:+ JSON_stringify x
    +:+ stringify_members JSON_stringify false fs.
Proof. reflexivity. Qed.

Lemma reparses_elements (xs : list value) :
  Forall reparses xs -> forallb representable xs = true ->
  forall x fuel rest,
    reparses x -> representable x = true ->
    (S (need x + list_sum (map (fun y => S (need y)) xs)) <= fuel)%nat ->
    exists items',
      parse_elements fuel
        (JSON_stringify x +:+ stringify_elements JSON_stringify false xs
         +:+ String "]" rest)
      = Returns (items', rest).
Proof.
  induction xs as [|y ys IH]; intros Hall Hrep x fuel rest Hx Hxr Hfuel;
    (destruct fuel as [|fuel]; [lia|]); rewrite parse_elements_S.
  - simpl stringify_elements. string_normal.
    destruct (Hx Hxr fuel (String "]" rest)) as (x' & Hparse & _);
      [simpl in Hfuel; lia|done|].
    rewrite Hparse. simpl. eauto.
  - apply Forall_cons in Hall as [Hy Hall].
    simpl in Hrep. apply andb_true_iff in Hrep as [Hyr Hrep].
    rewrite stringify_elements_cons. string_normal.
    rewrite string_app_assoc.
    set (tail := String "," _).
    destruct (Hx Hxr fuel tail) as (x' & Hparse & _);
      [simpl in Hfuel; lia|done|].
    rewrite Hparse. subst tail. simpl.
    destruct (IH Hall Hrep y fuel rest Hy Hyr) as (items' & Hrest).
    { simpl in Hfuel. lia. }
    rewrite Hrest. simpl. eauto.
Qed.

Lemma reparses_members (fs : list (string * value)) :
  Forall (fun kv => reparses (snd kv)) fs ->
  forallb (fun kv => representable (snd kv)) fs = true ->
  forall k x acc fuel rest,
    reparses x -> representable x = true ->
    (S (need x + list_sum (map (fun kv => S (need (snd kv))) fs)) <= fuel)%nat ->
    exists fs',
      parse_members fuel acc
        (quote k +:+ String ":" (JSON_stringify x
         +:+ stringify_members JSON_stringify false fs +:+ String "}" rest))
      = Returns (fs', rest).
Proof.
  induction fs as [|[k' y] fs IH]; intros Hall Hrep k x acc fuel rest Hx Hxr Hfuel;
    (destruct fuel as [|fuel]; [lia|]); rewrite parse_members_S;
    rewrite quote_app; string_normal;
    simpl skip_ws; simpl Ascii.eqb; cbv iota;
    rewrite scan_string_escaped; simpl.
  - string_normal.
    destruct (Hx Hxr fuel (String "}" rest)) as (x' & Hparse & _);
      [simpl in Hfuel; lia|done|].
    rewrite Hparse. simpl. eauto.
  - apply Forall_cons in Hall as [Hy Hall]. simpl in Hy.
    simpl in Hrep. apply andb_true_iff in Hrep as [Hyr Hrep].
    string_normal.
    rewrite (string_app_assoc (quote k')).
    string_normal.
    rewrite (string_app_assoc (JSON_stringify y)).
    set (tail := String "," _).
    destruct (Hx Hxr fuel tail) as (x' & Hparse & _);
      [simpl in Hfuel; lia|done|].
    rewrite Hparse. subst tail. simpl.
    apply (IH Hall Hrep k' y _ fuel rest Hy Hyr).
    simpl in Hfuel. lia.
Qed.

Lemma stringify_array (items : list value) :
  JSON_stringify (JArr items)
  = "[" +:+ stringify_elements JSON_stringify true items +:+ "]".
Proof. reflexivity. Qed.

Lemma stringify_object (fs : list (string * value)) :
  JSON_stringify (JObj fs)
  = "{" +:+ stringify_members JSON_stringify true fs +:+ "}".
Proof. reflexivity. Qed.

Lemma stringify_reparses (v : value) : reparses v.
Proof.
  induction v as [| b | n | s | items IH | fs IH] using value_ind;
    intros Hrep fuel rest Hfuel Hrest;
    (destruct fuel as [|fuel]; [simpl in Hfuel; lia|]).
  - exists JNull. split; reflexivity.
  - exists (JBool b). destruct b; split; reflexivity.
  - exists (JNum n). split; [|done]. by apply parse_value_number.
  - exists (JStr s). split; [|done].
    rewrite parse_value_S. simpl JSON_stringify. rewrite quote_app.
    simpl. by rewrite scan_string_escaped.
  - destruct items as [|x xs].
    + exists (JArr []). split; reflexivity.
    + apply Forall_cons in IH as [Hx Hxs].
      simpl in Hrep. apply andb_true_iff in Hrep as [Hxr Hxsr].
      destruct (reparses_elements xs Hxs Hxsr x fuel rest Hx Hxr) as (items' & Hp).
      { simpl in Hfuel. lia. }
      exists (JArr items'). split; [|done].
      rewrite parse_value_S, stringify_array.
      rewrite stringify_elements_cons. string_normal.
      rewrite string_app_assoc. string_normal.
      rewrite string_app_assoc. string_normal.
      simpl skip_ws at 1. simpl Ascii.eqb. cbv iota.
      destruct (stringify_opens_value x
                  (stringify_elements JSON_stringify false xs +:+ String "]" rest))
        as (c & r & Heq & Hws & Hbracket & _).
      rewrite Heq in *. simpl skip_ws. rewrite Hws, Hbracket.
      by rewrite Hp.
  - destruct fs as [|[k x] fs].
    + exists (JObj []). split; reflexivity.
    + apply Forall_cons in IH as [Hx Hfs]. simpl in Hx.
      simpl in Hrep. apply andb_true_iff in Hrep as [Hxr Hfsr].
      destruct (reparses_members fs Hfs Hfsr k x [] fuel rest Hx Hxr) as (fs' & Hp).
      { simpl in Hfuel. lia. }
      exists (JObj fs'). split; [|done].
      rewrite parse_value_S, stringify_object.
      rewrite stringify_members_cons. string_normal.
      rewrite string_app_assoc. string_normal.
      rewrite (string_app_assoc (quote k)). string_normal.
      rewrite (string_app_assoc (JSON_stringify x)). string_normal.
      simpl skip_ws at 1. simpl Ascii.eqb. cbv iota.
      rewrite quote_app in *. simpl skip_ws. simpl Ascii.eqb. cbv iota.
      by rewrite Hp.
Qed.

Lemma string_app_nil_r (s : string) : s +:+ "" = s.
Proof. induction s as [|c s IH]; [done|]. by rewrite string_app_cons, IH. Qed.

Lemma stringify_nonempty (v : value) : (1 <= String.length (JSON_stringify v))%nat.
Proof.
  destruct (stringify_opens_value v "") as (c & r & H & _).
  rewrite string_app_nil_r in H. rewrite H. simpl. lia.
Qed.

Lemma need_elements (first : bool) (items : list value) :
  Forall (fun x => (need x <= 2 * String.length (JSON_stringify x))%nat) items ->
  (list_sum (map (fun x => S (need x)) items)
   <= 2 * String.length (stringify_elements JSON_stringify first items)
      + (if first then 1 else 0))%nat.
Proof.
  revert first. induction items as [|x xs IH]; intros first Hall; [destruct first; simpl; lia|].
  apply Forall_cons in Hall as [Hx Hxs].
  rewrite stringify_elements_cons, !string_app_length. simpl map. simpl list_sum.
  specialize (IH false Hxs). cbv iota in IH. destruct first; simpl String.length; lia.
Qed.

Lemma need_members (first : bool) (fs : list (string * value)) :
  Forall (fun kv => (need (snd kv) <= 2 * String.length (JSON_stringify (snd kv)))%nat) fs ->
  (list_sum (map (fun kv => S (need (snd kv))) fs)
   <= 2 * String.length (stringify_members JSON_stringify first fs)
      + (if first then 1 else 0))%nat.
Proof.
  revert first. induction fs as [|[k x] fs IH]; intros first Hall; [destruct first; simpl; lia|].
  apply Forall_cons in Hall as [Hx Hfs]. simpl in Hx.
  rewrite stringify_members_cons, !string_app_length. simpl map. simpl list_sum.
  specialize (IH false Hfs). cbv iota in IH. destruct first; simpl String.length; lia.
Qed.

Lemma need_le_length (v : value) :
  (need v <= 2 * String.length (JSON_stringify v))%nat.
Proof.
  induction v as [| b | n | s | items IH | fs IH] using value_ind.
  - pose proof (stringify_nonempty JNull). simpl need. lia.
  - pose proof (stringify_nonempty (JBool b)). simpl need. lia.
  - pose proof (stringify_nonempty (JNum n)). simpl need. lia.
  - pose proof (stringify_nonempty (JStr s)). simpl need. lia.
  - pose proof (need_elements true items IH) as H. cbv iota in H.
    change (need (JArr items))
      with (S (list_sum (map (fun x => S (need x)) items))).
    rewrite stringify_array, !string_app_length.
    change (String.length "[") with 1%nat. change (String.length "]") with 1%nat.
    lia.
  - pose proof (need_members true fs IH) as H. cbv iota in H.
    change (need (JObj fs))
      with (S (list_sum (map (fun kv => S (need (snd kv))) fs))).
    rewrite stringify_object, !string_app_length.
    change (String.length "{") with 1%nat. change (String.length "}") with 1%nat.
    lia.
Qed.

(** Serialising a value of the model and parsing the text gives back a value
    of the same kind. *)
Lemma parse_stringify (v : value) :
  representable v = true ->
  exists v', JSON_parse (JSON_stringify v) = Returns v'
             /\ is_mapping v' = is_mapping v.
Proof.
  intros Hrep. unfold JSON_parse.
  destruct (stringify_reparses v Hrep
              (2 * String.length (JSON_stringify v) + 2)%nat "")
    as (v' & Hparse & Hkind); [|done|].
  { pose proof (need_le_length v). lia. }
  rewrite string_app_nil_r in Hparse. rewrite Hparse. simpl. eauto.
Qed.

(** ** Values of the model stay in the model *)

Lemma replace_representable (k : string) (v : value) (fs : list (string * value)) :
  representable v = true -> representable_fields fs = true ->
  representable_fields (replace k v fs) = true.
Proof.
  intros Hv. induction fs as [|[k' v'] fs IH]; simpl; [done|].
  intros [Hv' Hfs]%andb_true_iff.
  destruct (k' =? k)%string; simpl.
  - by rewrite Hv, Hfs.
  - by rewrite Hv', IH.
Qed.

Lemma insert_new_representable (k : string) (v : value)
    (fs : list (string * value)) :
  representable v = true -> representable_fields fs = true ->
  representable_fields (insert_new k v fs) = true.
Proof.
  intros Hv. induction fs as [|[k' v'] fs IH]; simpl.
  - by rewrite Hv.
  - intros [Hv' Hfs]%andb_true_iff.
    destruct (comes_before k k'); simpl.
    + by rewrite Hv, Hv', Hfs.
    + by rewrite Hv', IH.
Qed.

Lemma define_representable (k : string) (v : value) (fs : list (string * value)) :
  representable v = true -> representable_fields fs = true ->
  representable_fields (define k v fs) = true.
Proof.
  intros. unfold define. destruct (own fs k).
  - by apply replace_representable.
  - by apply insert_new_representable.
Qed.

Create HintDb model discriminated.
#[local] Hint Resolve replace_representable insert_new_representable
  define_representable : model.

Lemma own_representable (fs : list (string * value)) (k : string) (v : value) :
  representable_fields fs = true -> own fs k = Some v -> representable v = true.
Proof.
  induction fs as [|[k' v'] fs IH]; simpl; [done|].
  intros [Hv' Hfs]%andb_true_iff. destruct (k' =? k)%string.
  - congruence.
  - by apply IH.
Qed.

Lemma scan_number_representable (negative : bool) (s rest : string) (v : value) :
  scan_number negative s = Returns (v, rest) -> representable v = true.
Proof.
  unfold scan_number. intros H.
  repeat case_match; simplify_eq; try done; simpl; apply Z.leb_le;
    match goal with H : (max_exact <? _)%N = false |- _ => apply N.ltb_ge in H end;
    change max_exact with 9007199254740992%N in *; lia.
Qed.

Lemma scan_literal_representable (word s rest : string) (lit v : value) :
  representable lit = true ->
  scan_literal word lit s = Returns (v, rest) -> representable v = true.
Proof. unfold scan_literal. intros Hl H. case_match; by simplify_eq. Qed.

Lemma parse_representable (fuel : nat) :
  (forall s v rest, parse_value fuel s = Returns (v, rest) -> representable v = true)
  /\ (forall s items rest,
        parse_elements fuel s = Returns (items, rest) ->
        forallb representable items = true)
  /\ (forall acc s fs rest,
        representable_fields acc = true ->
        parse_members fuel acc s = Returns (fs, rest) ->
        representable_fields fs = true).
Proof.
  induction fuel as [|fuel (IHv & IHe & IHm)]; [by repeat split|].
  split; [|split].
  - intros s v rest. rewrite parse_value_S. unfold obind. intros H.
    repeat case_match; simplify_eq;
      first
        [ done
        | match goal with H : parse_members _ _ _ = _ |- _ => by apply IHm in H end
        | match goal with H : parse_elements _ _ = _ |- _ => by apply IHe in H end
        | match goal with
          | H : scan_number _ _ = _ |- _ => by apply scan_number_representable in H
          end
        | match goal with
          | H : scan_literal _ _ _ = _ |- _ =>
              by apply scan_literal_representable in H
          end ].
  - intros s items rest. rewrite parse_elements_S. unfold obind. intros H.
    repeat case_match; simplify_eq; simpl.
    + match goal with H : parse_value _ _ = _ |- _ => apply IHv in H; rewrite H end.
      match goal with H : parse_elements _ _ = _ |- _ => apply IHe in H end. done.
    + match goal with H : parse_value _ _ = _ |- _ => apply IHv in H; rewrite H end.
      done.
  - intros acc s fs rest Hacc. rewrite parse_members_S. unfold obind. intros H.
    repeat case_match; simplify_eq.
    + match goal with H : parse_members _ _ _ = _ |- _ => apply IHm in H end; [done|].
      apply define_representable; [|done].
      match goal with H : parse_value _ _ = _ |- _ => by apply IHv in H end.
    + apply define_representable; [|done].
      match goal with H : parse_value _ _ = _ |- _ => by apply IHv in H end.
Qed.

Lemma JSON_parse_representable (text : string) (v : value) :
  JSON_parse text = Returns v -> representable v = true.
Proof.
  unfold JSON_parse, obind. intros H. repeat case_match; simplify_eq.
  match goal with H : parse_value _ _ = _ |- _ =>
    by apply (proj1 (parse_representable _)) in H end.
Qed.

Lemma indexed_representable (i : nat) (items : list value) :
  forallb representable items = true ->
  representable_fields (indexed i items) = true.
Proof.
  revert i. induction items as [|x items IH]; intros i; simpl; [done|].
  intros [Hx Hitems]%andb_true_iff. by rewrite Hx, IH.
Qed.

Lemma chars_representable (s : string) : forallb representable (chars s) = true.
Proof. induction s as [|c s IH]; simpl; done. Qed.

Lemma spread_representable (target : list (string * value)) (source : value) :
  representable_fields target = true -> representable source = true ->
  representable_fields (spread target source) = true.
Proof.
  intros Ht Hs. unfold spread.
  assert (Hl : representable_fields (own_enumerable source) = true).
  { destruct source; simpl; try done.
    - apply indexed_representable, chars_representable.
    - by apply indexed_representable. }
  revert target Ht. induction (own_enumerable source) as [|[k v] l IH];
    intros target Ht; simpl; [done|].
  simpl in Hl. apply andb_true_iff in Hl as [Hv Hl].
  apply IH; [done|]. by apply define_representable.
Qed.

Lemma merge_representable (existing incoming : value) :
  representable existing = true -> representable incoming = true ->
  representable (merge existing incoming) = true.
Proof.
  intros He Hi. unfold merge.
  change (representable_fields (spread (spread [] existing) incoming) = true).
  by repeat apply spread_representable.
Qed.

Lemma assign_returns (current : value) (k : string) (v r : value) :
  assign current k v = Returns r ->
  representable current = true -> representable v = true ->
  is_mapping r = true /\ representable r = true.
Proof.
  unfold assign. intros H Hc Hv.
  repeat case_match; simplify_eq; (split; [done|]);
    change (representable_fields (define k v fields) = true); auto with model.
Qed.

(** When the walk returns, it returns a mapping of the model. *)
Lemma walk_returns (keys : list string) (current v r : value) :
  walk current keys v = Returns r ->
  representable current = true -> representable v = true ->
  is_mapping r = true /\ representable r = true.
Proof.
  revert current r. induction keys as [|k rest IH]; intros current r H Hc Hv.
  - by eapply assign_returns.
  - destruct rest as [|k' rest]; [by eapply assign_returns|].
    rewrite walk_intermediate in H.
    destruct current as [| | | | |fs]; try discriminate.
    assert (Hstep : forall child,
              representable child = true ->
              (let* child' := walk child (k' :: rest) v in
               Returns (JObj (define k child' fs))) = Returns r ->
              is_mapping r = true /\ representable r = true).
    { intros child Hchild Hr. unfold obind in Hr.
      destruct (walk child (k' :: rest) v) as [child'| |] eqn:Hw; simplify_eq.
      split; [done|]. apply define_representable; [|done].
      by destruct (IH child child' Hw Hchild Hv). }
    unfold get in H. destruct (own fs k) as [child|] eqn:Hown.
    + destruct (truthy child); [|by apply (Hstep (JObj []))].
      apply (Hstep child); [|done]. by eapply own_representable.
    + destruct (inherited k); [discriminate|]. by apply (Hstep (JObj [])).
Qed.

(** ** The stored column deserialises to a mapping *)

Lemma updated_metadata_mapping (body : set_body) (u : option user_row) (m : value) :
  well_typed (SetMetadata body) -> updated_metadata body u = Returns m ->
  is_mapping m = true /\ representable m = true.
Proof.
  intros [Hmap Hrep]. unfold updated_metadata, obind. intros H.
  repeat case_match; simplify_eq; try done.
  split; [done|]. apply merge_representable; [|done].
  by eapply JSON_parse_representable.
Qed.

Lemma patched_metadata_mapping (body : update_body) (u : option user_row)
    (m : value) :
  well_typed (UpdateMetadata body) -> patched_metadata body u = Returns m ->
  is_mapping m = true /\ representable m = true.
Proof.
  simpl. intros Hrep. unfold patched_metadata, load, obind. intros H.
  repeat case_match; simplify_eq;
    (eapply walk_returns; [eassumption| |done]);
    [by eapply JSON_parse_representable|done].
Qed.

(** The world after a well-typed request: untouched, read, read and
    written with the text of a mapping, or written with null. *)
Lemma handle_world (op : operation) (s : option session) (w : world) :
  well_typed op ->
  snd (handle op s w) = w
  \/ (exists uid, snd (handle op s w) = record (FindOne uid) w)
  \/ (exists uid m,
        is_mapping m = true /\ representable m = true
        /\ snd (handle op s w)
           = record (Update uid (Some (JSON_stringify m)))
               (store uid (Some (JSON_stringify m)) (record (FindOne uid) w)))
  \/ (exists uid,
        snd (handle op s w) = record (Update uid None) (store uid None w)).
Proof.
  intros Htyped. destruct (caller s) as [uid|] eqn:Hs.
  2:{ left. by rewrite handle_unauthorized. }
  right. destruct op as [body| |body|]; unfold handle.
  - rewrite (setMetadata_run s uid Hs _ _). unfold read_modify_write.
    destruct (updated_metadata body (users w !! uid)) as [m| |] eqn:Hm;
      [right; left|left; by exists uid|left; by exists uid].
    destruct (updated_metadata_mapping body _ m Htyped Hm).
    by exists uid, m.
  - left. exists uid. by rewrite (getMetadata_run s uid Hs _).
  - rewrite (updateMetadata_run s uid Hs _ _). unfold read_modify_write.
    destruct (patched_metadata body (users w !! uid)) as [m| |] eqn:Hm;
      [right; left|left; by exists uid|left; by exists uid].
    destruct (patched_metadata_mapping body _ m Htyped Hm).
    by exists uid, m.
  - right; right. exists uid. by rewrite (deleteMetadata_run s uid Hs _).
Qed.

Lemma stored_mappings_store (uid : string) (m : value) (w : world) :
  is_mapping m = true -> representable m = true -> stored_mappings w ->
  stored_mappings
    (record (Update uid (Some (JSON_stringify m)))
       (store uid (Some (JSON_stringify m)) (record (FindOne uid) w))).
Proof.
  intros Hmap Hrep Hinv uid' text Hrow. simpl in Hrow.
  destruct (decide (uid' = uid)) as [->|Hne].
  - rewrite lookup_alter_eq in Hrow.
    unfold row in Hrow. destruct (users w !! uid); simplify_eq/=.
    destruct (parse_stringify m Hrep) as (m' & Hparse & Hkind).
    rewrite Hmap in Hkind. destruct m'; try discriminate. eauto.
  - rewrite lookup_alter_ne in Hrow by done. by eapply Hinv.
Qed.

Lemma stored_mappings_delete (uid : string) (w : world) :
  stored_mappings w ->
  stored_mappings (record (Update uid None) (store uid None w)).
Proof.
  intros Hinv uid' text Hrow. simpl in Hrow.
  destruct (decide (uid' = uid)) as [->|Hne].
  - rewrite lookup_alter_eq in Hrow.
    unfold row in Hrow. destruct (users w !! uid); simplify_eq/=.
  - rewrite lookup_alter_ne in Hrow by done. by eapply Hinv.
Qed.

Lemma new_calls_app (w : world) (cs : list call) (w' : world) :
  calls w' = calls w ++ cs -> new_calls w w' = cs.
Proof. intros H. unfold new_calls. rewrite H. by rewrite drop_app_length. Qed.

(** C4, as the code has it.  When every request is as its type says (the
    metadata of [setMetadata] is a mapping), each of the four operations
    keeps the invariant that every column that is present deserialises to a
    mapping, and every text a request writes is the serialisation of a
    mapping.  The handlers themselves do not check the request. *)
Theorem stored_mappings_preserved (op : operation) (s : option session) (w : world) :
  well_typed op -> stored_mappings w ->
  stored_mappings (snd (handle op s w))
  /\ (forall uid text,
        In (Update uid (Some text)) (new_calls w (snd (handle op s w))) ->
        exists fs, text = JSON_stringify (JObj fs)).
Proof.
  intros Htyped Hinv.
  destruct (handle_world op s w Htyped)
    as [->|[(uid & ->)|[(uid & m & Hmap & Hrep & ->)|(uid & ->)]]].
  - split; [done|]. intros uid text.
    rewrite (new_calls_app w []) by (by rewrite app_nil_r). by intros [].
  - split; [done|]. intros uid' text.
    rewrite (new_calls_app w [FindOne uid]) by done.
    intros [?|[]]. discriminate.
  - split; [by apply stored_mappings_store|]. intros uid' text.
    rewrite (new_calls_app w [FindOne uid; Update uid (Some (JSON_stringify m))])
      by (simpl; by rewrite <- app_assoc).
    intros [?|[?|[]]]; simplify_eq.
    destruct m; try discriminate. eauto.
  - split; [by apply stored_mappings_delete|]. intros uid' text.
    rewrite (new_calls_app w [Update uid None]) by done.
    intros [?|[]]. discriminate.
Qed.

Lemma stored_mappings_preserved_witness :
  let w := fresh {[ "u1" := row (js "{'a':{'b':1}}"); "u2" := blank_row ]} in
  let body := {| body_path := Some "a.c"; body_value := JArr [JNum 2] |} in
  stored_mappings (snd (handle (UpdateMetadata body) (logged_in "u1") w))
  /\ users (snd (handle (UpdateMetadata body) (logged_in "u1") w)) !! "u1"
     = Some (row (js "{'a':{'b':1,'c':[2]}}")).
Proof.
  intros w body. split; [|vm_compute; reflexivity].
  apply (stored_mappings_preserved (UpdateMetadata body) (logged_in "u1") w).
  - reflexivity.
  - intros uid text Hrow. unfold w, fresh in Hrow. cbv [users] in Hrow.
    apply lookup_insert_Some in Hrow as [[_ Hrow]|[_ Hrow]].
    + injection Hrow as <-. eexists. vm_compute. reflexivity.
    + apply lookup_singleton_Some in Hrow as [_ Hrow]. discriminate.
Defined.

(** C4, as the spec states it, fails: [setMetadata] in replace mode, and in
    merge mode when nothing is stored, writes the metadata of the request as
    it comes; an array (which the type of the request admits) is then what
    the column deserialises to. *)
Lemma setMetadata_persists_an_array :
  let w := fresh {[ "u1" := blank_row ]} in
  let body merge_ := {| body_metadata := JArr [JNum 1; JNum 2];
                        body_merge := merge_ |} in
  users (snd (setMetadata (logged_in "u1") (body (Some false)) w)) !! "u1"
    = Some (row "[1,2]")
  /\ users (snd (setMetadata (logged_in "u1") (body None) w)) !! "u1"
     = Some (row "[1,2]")
  /\ JSON_parse "[1,2]" = Returns (JArr [JNum 1; JNum 2])
  /\ ~ stored_mappings (snd (setMetadata (logged_in "u1") (body (Some false)) w)).
Proof.
  intros w body.
  split; [vm_compute; reflexivity|].
  split; [vm_compute; reflexivity|].
  split; [vm_compute; reflexivity|].
  intros Hinv. destruct (Hinv "u1" "[1,2]") as [fs Hfs].
  - vm_compute. reflexivity.
  - vm_compute in Hfs. discriminate.
Qed.

(** ** Paths and their segments *)

Lemma split_nonempty (sep : ascii) (p : string) : split sep p <> [].
Proof.
  destruct p as [|c p]; simpl; [done|].
  destruct (Ascii.eqb c sep); [done|]. by destruct (split sep p).
Qed.

Lemma split_cons (sep c : ascii) (p : string) :
  split sep (String c p)
  = if Ascii.eqb c sep then "" :: split sep p
    else match split sep p with
         | [] => [String c ""]
         | seg :: segs => String c seg :: segs
         end.
Proof. reflexivity. Qed.

Lemma split_no_sep (sep : ascii) (p : string) :
  contains sep p = false -> split sep p = [p].
Proof.
  induction p as [|c p IH]; [done|]. rewrite split_cons. simpl.
  intros [Hc Hp]%orb_false_iff. rewrite Hc, (IH Hp). done.
Qed.

Lemma split_segments (sep : ascii) (p : string) :
  Forall (fun seg => contains sep seg = false) (split sep p).
Proof.
  induction p as [|c p IH]; [by repeat constructor|].
  rewrite split_cons. destruct (Ascii.eqb c sep) eqn:Hc.
  - by constructor.
  - destruct (split sep p) as [|seg segs]; [by repeat constructor; simpl; rewrite Hc|].
    apply Forall_cons in IH as [Hseg Hsegs].
    constructor; [|done]. simpl. by rewrite Hc, Hseg.
Qed.

Lemma join_split (sep : ascii) (p : string) : join sep (split sep p) = p.
Proof.
  induction p as [|c p IH]; [done|].
  rewrite split_cons. destruct (Ascii.eqb_spec c sep) as [->|Hne].
  - pose proof (split_nonempty sep p) as Hne.
    destruct (split sep p) as [|seg segs] eqn:Hs; [done|].
    change (join sep ("" :: seg :: segs)) with (String sep (join sep (seg :: segs))).
    by rewrite IH.
  - pose proof (split_nonempty sep p) as Hnil.
    destruct (split sep p) as [|seg segs] eqn:Hs; [done|].
    destruct segs as [|seg' segs].
    + simpl in *. by rewrite IH.
    + change (join sep (String c seg :: seg' :: segs))
        with (String c (seg +:+ String sep (join sep (seg' :: segs)))).
      change (join sep (seg :: seg' :: segs))
        with (seg +:+ String sep (join sep (seg' :: segs))) in IH.
      by rewrite IH.
Qed.

Lemma split_join (sep : ascii) (segs : list string) :
  segs <> [] -> Forall (fun seg => contains sep seg = false) segs ->
  split sep (join sep segs) = segs.
Proof.
  induction segs as [|seg segs IH]; [done|]. intros _ Hall.
  apply Forall_cons in Hall as [Hseg Hsegs].
  destruct segs as [|seg' segs]; [by apply split_no_sep|].
  change (join sep (seg :: seg' :: segs))
    with (seg +:+ String sep (join sep (seg' :: segs))).
  specialize (IH ltac:(done) Hsegs).
  clear Hsegs. induction seg as [|c seg IHseg].
  - rewrite string_app_nil, split_cons, Ascii.eqb_refl. by rewrite IH.
  - simpl in Hseg. apply orb_false_iff in Hseg as [Hc Hseg].
    rewrite string_app_cons, split_cons, Hc, (IHseg Hseg). done.
Qed.

(** ** What the walk writes and what it leaves alone *)

Lemma assign_inv (current : value) (k : string) (v r : value) :
  assign current k v = Returns r ->
  exists fs, current = JObj fs /\ r = JObj (define k v fs).
Proof.
  unfold assign. intros H. repeat case_match; simplify_eq; eauto.
Qed.

(** The shape of a successful turn of the loop. *)
Lemma walk_intermediate_inv (current : value) (k k' : string)
    (rest : list string) (v r : value) :
  walk current (k :: k' :: rest) v = Returns r ->
  exists fs child child',
    current = JObj fs
    /\ r = JObj (define k child' fs)
    /\ walk child (k' :: rest) v = Returns child'
    /\ (own fs k = Some child /\ truthy child = true
        \/ child = JObj []
           /\ (own fs k = None \/ exists old, own fs k = Some old /\ truthy old = false)).
Proof.
  rewrite walk_intermediate. intros H.
  destruct current as [| | | | |fs]; try discriminate.
  unfold get in H. destruct (own fs k) as [child|] eqn:Hown.
  - destruct (truthy child) eqn:Ht.
    + destruct (walk child (k' :: rest) v) as [child'| |] eqn:Hw; simplify_eq/=.
      exists fs, child, child'. eauto 10.
    + destruct (walk (JObj []) (k' :: rest) v) as [child'| |] eqn:Hw; simplify_eq/=.
      exists fs, (JObj []), child'. eauto 10.
  - destruct (inherited k); [discriminate|].
    destruct (walk (JObj []) (k' :: rest) v) as [child'| |] eqn:Hw; simplify_eq/=.
    exists fs, (JObj []), child'. eauto 10.
Qed.

Lemma walk_returns_mapping (keys : list string) (current v r : value) :
  walk current keys v = Returns r -> is_mapping r = true.
Proof.
  destruct keys as [|k [|k' rest]]; intros H.
  - by apply assign_inv in H as (fs & _ & ->).
  - by apply assign_inv in H as (fs & _ & ->).
  - by apply walk_intermediate_inv in H as (fs & c & c' & _ & -> & _).
Qed.

Lemma walk_read_back (keys : list string) (current v r : value) :
  keys <> [] -> walk current keys v = Returns r -> read r keys = Some v.
Proof.
  revert current r. induction keys as [|k rest IH]; intros current r Hne H; [done|].
  destruct rest as [|k' rest].
  - apply assign_inv in H as (fs & _ & ->). simpl. by rewrite own_define_same.
  - apply walk_intermediate_inv in H as (fs & c & c' & _ & -> & Hw & _).
    change (read (JObj (define k c' fs)) (k :: k' :: rest))
      with (match own (define k c' fs) k with
            | Some child => read child (k' :: rest)
            | None => None
            end).
    rewrite own_define_same. by eapply IH.
Qed.

Lemma read_falsy (v : value) (keys : list string) :
  truthy v = false -> keys <> [] -> read v keys = None.
Proof. destruct keys; [done|]. by destruct v. Qed.

Lemma read_empty (k : string) (keys : list string) :
  read (JObj []) (k :: keys) = None.
Proof. reflexivity. Qed.

Lemma read_cons (fs : list (string * value)) (k : string) (keys : list string) :
  read (JObj fs) (k :: keys)
  = match own fs k with Some child => read child keys | None => None end.
Proof. reflexivity. Qed.

(** Off the path nothing changes: a read that leaves the path of the update
    at some segment finds what it found before. *)
Lemma walk_frame (p : list string) (a b : string) (q rest : list string)
    (current v r : value) :
  a <> b -> walk current (p ++ b :: rest) v = Returns r ->
  read r (p ++ a :: q) = read current (p ++ a :: q).
Proof.
  intros Hab. revert current r.
  induction p as [|k p IH]; intros current r H.
  - cbn [app] in *. destruct rest as [|k' rest].
    + apply assign_inv in H as (fs & -> & ->).
      rewrite !read_cons. by rewrite own_define_other.
    + apply walk_intermediate_inv in H as (fs & c & c' & -> & -> & _).
      rewrite !read_cons. by rewrite own_define_other.
  - change ((k :: p) ++ b :: rest) with (k :: (p ++ b :: rest)) in H.
    change ((k :: p) ++ a :: q) with (k :: (p ++ a :: q)).
    assert (Hp : exists k' rest', p ++ b :: rest = k' :: rest')
      by (destruct p; simpl; eauto).
    destruct Hp as (k' & rest' & Hp). rewrite Hp in H.
    apply walk_intermediate_inv in H as (fs & c & c' & -> & -> & Hw & Hcase).
    rewrite <- Hp in Hw. rewrite !read_cons, own_define_same.
    rewrite (IH c c' Hw).
    assert (Hfresh : read (JObj []) (p ++ a :: q) = None)
      by (destruct p; reflexivity).
    destruct Hcase as [[-> _]|[-> [->|(old & -> & Hold)]]]; [done|done|].
    rewrite Hfresh. symmetry. apply read_falsy; [done|by destruct p].
Qed.

Lemma replace_same (fs : list (string * value)) (k : string) (x : value) :
  own fs k = Some x -> replace k x fs = fs.
Proof.
  induction fs as [|[k' v'] fs IH]; simpl; [done|].
  destruct (String.eqb_spec k' k) as [->|Hne].
  - by intros [= ->].
  - intros H. by rewrite IH.
Qed.

Lemma define_again (fs : list (string * value)) (k : string) (x : value) :
  define k x (define k x fs) = define k x fs.
Proof.
  unfold define at 1. rewrite own_define_same.
  apply replace_same, own_define_same.
Qed.

Lemma walk_again (keys : list string) (current v r : value) :
  walk current keys v = Returns r -> walk r keys v = Returns r.
Proof.
  revert current r. induction keys as [|k rest IH]; intros current r H.
  - apply assign_inv in H as (fs & _ & ->). simpl. unfold assign.
    by rewrite own_define_same, define_again.
  - destruct rest as [|k' rest].
    + apply assign_inv in H as (fs & _ & ->). simpl. unfold assign.
      by rewrite own_define_same, define_again.
    + apply walk_intermediate_inv in H as (fs & c & c' & _ & -> & Hw & _).
      rewrite walk_intermediate. unfold get. rewrite own_define_same.
      pose proof (walk_returns_mapping _ _ _ _ Hw) as Hmap.
      destruct c'; try discriminate. simpl truthy. cbv iota.
      rewrite (IH _ _ Hw). simpl. by rewrite define_again.
Qed.

(** Within mappings, and with no segment taken from [Object.prototype], the
    walk returns. *)
Lemma walk_within (keys : list string) (current v : value) :
  keys <> [] -> within_mappings current keys = true ->
  Forall (fun k => inherited k = false) keys ->
  exists r, walk current keys v = Returns r.
Proof.
  revert current. induction keys as [|k rest IH]; intros current Hne Hin Hk; [done|].
  apply Forall_cons in Hk as [Hk Hrest].
  destruct current as [| | | | |fs]; try discriminate.
  destruct rest as [|k' rest].
  - simpl. unfold assign.
    destruct (String.eqb_spec k "__proto__") as [->|_]; [discriminate|].
    destruct (own fs k); eauto.
  - rewrite walk_intermediate. unfold get. cbn [within_mappings] in Hin.
    destruct (own fs k) as [child|] eqn:Hown.
    + destruct (truthy child).
      * destruct (IH child) as [r ->]; [done|done|done|]. simpl. eauto.
      * destruct (IH (JObj [])) as [r ->]; [done|by destruct rest|done|]. simpl. eauto.
    + rewrite Hk. destruct (IH (JObj [])) as [r ->]; [done|by destruct rest|done|]. simpl. eauto.
Qed.

(** X1.  Let the walk stay within mappings (the root is a mapping, and so is
    every existing truthy value an intermediate segment leads to), and let no
    segment of the path be the name of a property of [Object.prototype].
    Then [setPath] returns, and the value is found in the result at the end
    of the path: reading the result segment by segment gives [v]. *)
Theorem setPath_read_back (root : value) (path : string) (v : value) :
  within_mappings root (split "." path) = true ->
  Forall (fun k => inherited k = false) (split "." path) ->
  exists r, setPath root path v = Returns r
            /\ read r (split "." path) = Some v.
Proof.
  intros Hin Hk.
  destruct (walk_within (split "." path) root v (split_nonempty _ _) Hin Hk)
    as [r Hr].
  exists r. split; [exact Hr|].
  exact (walk_read_back _ root v r (split_nonempty _ _) Hr).
Qed.

Lemma setPath_read_back_witness :
  exists r,
    setPath (JObj [("a", JObj [("b", JNum 0); ("n", JNum 1)])]) "a.b.c" (JNum 5)
    = Returns r
    /\ read r (split "." "a.b.c") = Some (JNum 5).
Proof.
  apply (setPath_read_back (JObj [("a", JObj [("b", JNum 0); ("n", JNum 1)])])
           "a.b.c" (JNum 5)).
  - reflexivity.
  - change (split "." "a.b.c") with ["a"; "b"; "c"]. repeat constructor.
Defined.

(** X2.  Under the same two conditions (the walk stays within mappings, no
    segment is the name of a property of [Object.prototype]), [setPath]
    returns and everything off the path is as before: a read that follows
    the path for some segments and then takes another key finds in the
    result what it finds in the root. *)
Theorem setPath_frame (root : value) (path : string) (v : value)
    (p : list string) (a b : string) (q rest : list string) :
  within_mappings root (split "." path) = true ->
  Forall (fun k => inherited k = false) (split "." path) ->
  split "." path = p ++ b :: rest -> a <> b ->
  exists r, setPath root path v = Returns r
            /\ read r (p ++ a :: q) = read root (p ++ a :: q).
Proof.
  intros Hin Hk Hpath Hab.
  destruct (walk_within (split "." path) root v (split_nonempty _ _) Hin Hk)
    as [r Hr].
  exists r. split; [exact Hr|].
  unfold setPath in Hr. rewrite Hpath in Hr.
  by eapply walk_frame.
Qed.

Lemma setPath_frame_witness :
  let root := JObj [("a", JObj [("b", JNum 0); ("n", JArr [JNum 1])]); ("t", JStr "x")] in
  (exists r, setPath root "a.b.c" (JNum 5) = Returns r
             /\ read r ["a"; "n"] = read root ["a"; "n"])
  /\ (exists r, setPath root "a.b.c" (JNum 5) = Returns r
                /\ read r ["t"] = read root ["t"]).
Proof.
  intros root. split.
  - apply (setPath_frame root "a.b.c" (JNum 5) ["a"] "n" "b" [] ["c"]);
      [reflexivity| |reflexivity|discriminate].
    change (split "." "a.b.c") with ["a"; "b"; "c"]. repeat constructor.
  - apply (setPath_frame root "a.b.c" (JNum 5) [] "t" "a" [] ["b"; "c"]);
      [reflexivity| |reflexivity|discriminate].
    change (split "." "a.b.c") with ["a"; "b"; "c"]. repeat constructor.
Defined.

(** X3.  [setPath] is idempotent: the same update applied to its own result
    returns that result unchanged. *)
Theorem setPath_idempotent (root : value) (path : string) (v r : value) :
  setPath root path v = Returns r -> setPath r path v = Returns r.
Proof. apply walk_again. Qed.

Lemma setPath_idempotent_witness :
  let r := JObj [("a", JObj [("b", JObj [("c", JNum 5)])]); ("t", JStr "x")] in
  setPath r "a.b.c" (JNum 5) = Returns r.
Proof.
  intros r.
  apply (setPath_idempotent (JObj [("a", JStr ""); ("t", JStr "x")]) "a.b.c" (JNum 5) r).
  reflexivity.
Defined.

(** X4.  A key that holds a dot is out of reach of [setPath]: whenever it
    returns, such a key of the root is neither created nor changed. *)
Theorem setPath_keeps_dotted_keys (root : value) (path : string) (v r : value)
    (k : string) :
  setPath root path v = Returns r -> contains "." k = true ->
  member r k = member root k.
Proof.
  intros H Hk.
  pose proof (split_segments "." path) as Hsegs.
  destruct (split "." path) as [|b rest] eqn:Hpath.
  { by destruct (split_nonempty "." path). }
  apply Forall_cons in Hsegs as [Hb _].
  assert (Hkb : k <> b) by (intros ->; congruence).
  pose proof (walk_returns_mapping _ _ _ _ H) as Hr.
  unfold setPath in H. rewrite Hpath in H.
  pose proof (walk_frame [] k b [] rest root v r Hkb H) as Hread.
  assert (Hroot : is_mapping root = true).
  { destruct rest as [|k' rest].
    - by apply assign_inv in H as (fs & -> & _).
    - by apply walk_intermediate_inv in H as (fs & c & c' & -> & _). }
  destruct r, root; try discriminate. simpl in *.
  by repeat case_match; simplify_eq.
Qed.

Lemma setPath_keeps_dotted_keys_witness :
  let root := JObj [("a.b", JNum 1)] in
  let r := JObj [("a.b", JNum 1); ("a", JObj [("b", JNum 2)])] in
  member r "a.b" = member root "a.b".
Proof.
  intros root r.
  apply (setPath_keeps_dotted_keys root "a.b" (JNum 2) r "a.b"); reflexivity.
Defined.

(** X5.  A path without a dot sets one top-level key: on a mapping it always
    returns (a key [__proto__] that is not an own property apart), the key
    takes the value and every other key keeps its value. *)
Theorem setPath_single_segment
    (fs : list (string * value)) (p : string) (v : value) :
  contains "." p = false -> is_Some (own fs p) \/ p <> "__proto__" ->
  setPath (JObj fs) p v = Returns (JObj (define p v fs))
  /\ own (define p v fs) p = Some v
  /\ (forall k, k <> p -> own (define p v fs) k = own fs k).
Proof.
  intros Hp Hown. split; [|split].
  - unfold setPath. rewrite (split_no_sep "." p Hp). simpl. unfold assign.
    destruct (own fs p) eqn:E; [done|].
    destruct Hown as [[? ?]|Hne]; [done|].
    apply String.eqb_neq in Hne. by rewrite Hne.
  - apply own_define_same.
  - intros k Hk. by apply own_define_other.
Qed.

Lemma setPath_single_segment_witness :
  setPath (JObj [("theme", JStr "dark"); ("lang", JStr "en")]) "theme" (JStr "light")
  = Returns (JObj [("theme", JStr "light"); ("lang", JStr "en")]).
Proof.
  apply (setPath_single_segment [("theme", JStr "dark"); ("lang", JStr "en")]
           "theme" (JStr "light")); [reflexivity|].
  right. discriminate.
Defined.

(** X6.  A truthy scalar (a non-empty string, a number other than 0, true)
    under the last but one segment stops the update: the write of the last
    segment lands on the scalar and raises TypeError. *)
Theorem setPath_on_truthy_scalar
    (root : value) (path : string) (p : list string) (k k2 : string)
    (fs : list (string * value)) (child v : value) :
  split "." path = p ++ [k; k2] -> descend root p = Some fs ->
  own fs k = Some child -> is_scalar child = true -> truthy child = true ->
  k2 <> "__proto__" ->
  setPath root path v = Throws TypeError.
Proof.
  intros Hpath Hreach Hown Hscalar Htruthy Hk2.
  unfold setPath. rewrite Hpath, (walk_descend p _ root v fs Hreach) by done.
  rewrite walk_intermediate. unfold get. rewrite Hown, Htruthy.
  apply String.eqb_neq in Hk2.
  destruct child; try discriminate; simpl; unfold assign; by rewrite Hk2.
Qed.

Lemma setPath_on_truthy_scalar_witness :
  setPath (JObj [("prefs", JObj [("lang", JNum 7)])]) "prefs.lang.region" (JStr "x")
  = Throws TypeError.
Proof.
  apply (setPath_on_truthy_scalar _ "prefs.lang.region" ["prefs"] "lang" "region"
           [("lang", JNum 7)] (JNum 7)); try reflexivity. discriminate.
Defined.

(** ** Serialise, then parse: the value rebuilt *)

Lemma rebuilds_elements (xs : list value) :
  Forall rebuilds xs -> forallb representable xs = true ->
  forall x fuel rest,
    rebuilds x -> representable x = true ->
    (S (need x + list_sum (map (fun y => S (need y)) xs)) <= fuel)%nat ->
    parse_elements fuel
      (JSON_stringify x +:+ stringify_elements JSON_stringify false xs
       +:+ String "]" rest)
    = Returns (map canon (x :: xs), rest).
Proof.
  induction xs as [|y ys IH]; intros Hall Hrep x fuel rest Hx Hxr Hfuel;
    (destruct fuel as [|fuel]; [lia|]); rewrite parse_elements_S.
  - simpl stringify_elements. string_normal.
    rewrite (Hx Hxr fuel (String "]" rest)); [done|simpl in Hfuel; lia|done].
  - apply Forall_cons in Hall as [Hy Hall].
    simpl in Hrep. apply andb_true_iff in Hrep as [Hyr Hrep].
    rewrite stringify_elements_cons. string_normal.
    rewrite string_app_assoc.
    set (tail := String "," _).
    rewrite (Hx Hxr fuel tail); [|simpl in Hfuel; lia|done].
    subst tail. simpl obind. simpl skip_ws. simpl Ascii.eqb. cbv iota.
    rewrite (IH Hall Hrep y fuel rest Hy Hyr); [done|].
    simpl in Hfuel. lia.
Qed.

Lemma rebuilds_members (fs : list (string * value)) :
  Forall (fun kv => rebuilds (snd kv)) fs ->
  forallb (fun kv => representable (snd kv)) fs = true ->
  forall k x acc fuel rest,
    rebuilds x -> representable x = true ->
    (S (need x + list_sum (map (fun kv => S (need (snd kv))) fs)) <= fuel)%nat ->
    parse_members fuel acc
      (quote k +:+ String ":" (JSON_stringify x
       +:+ stringify_members JSON_stringify false fs +:+ String "}" rest))
    = Returns (fold_left (fun acc kv => define (fst kv) (canon (snd kv)) acc)
                 ((k, x) :: fs) acc, rest).
Proof.
  induction fs as [|[k' y] fs IH]; intros Hall Hrep k x acc fuel rest Hx Hxr Hfuel;
    (destruct fuel as [|fuel]; [lia|]); rewrite parse_members_S;
    rewrite quote_app; string_normal;
    simpl skip_ws; simpl Ascii.eqb; cbv iota;
    rewrite scan_string_escaped; simpl obind; simpl skip_ws; simpl Ascii.eqb;
    cbv iota.
  - string_normal.
    rewrite (Hx Hxr fuel (String "}" rest)); [done|simpl in Hfuel; lia|done].
  - apply Forall_cons in Hall as [Hy Hall]. simpl in Hy.
    simpl in Hrep. apply andb_true_iff in Hrep as [Hyr Hrep].
    string_normal.
    rewrite (string_app_assoc (quote k')).
    string_normal.
    rewrite (string_app_assoc (JSON_stringify y)).
    set (tail := String "," _).
    rewrite (Hx Hxr fuel tail); [|simpl in Hfuel; lia|done].
    subst tail. simpl obind. simpl skip_ws. simpl Ascii.eqb. cbv iota.
    rewrite (IH Hall Hrep k' y _ fuel rest Hy Hyr); [done|].
    simpl in Hfuel. lia.
Qed.

Lemma canon_array (items : list value) :
  canon (JArr items) = JArr (map canon items).
Proof. reflexivity. Qed.

Lemma canon_object (fs : list (string * value)) :
  canon (JObj fs)
  = JObj (fold_left (fun acc kv => define (fst kv) (canon (snd kv)) acc) fs []).
Proof. reflexivity. Qed.

Lemma stringify_rebuilds (v : value) : rebuilds v.
Proof.
  induction v as [| b | n | s | items IH | fs IH] using value_ind;
    intros Hrep fuel rest Hfuel Hrest;
    (destruct fuel as [|fuel]; [simpl in Hfuel; lia|]).
  - reflexivity.
  - by destruct b.
  - by apply parse_value_number.
  - rewrite parse_value_S. simpl JSON_stringify. rewrite quote_app.
    simpl. by rewrite scan_string_escaped.
  - destruct items as [|x xs]; [reflexivity|].
    apply Forall_cons in IH as [Hx Hxs].
    simpl in Hrep. apply andb_true_iff in Hrep as [Hxr Hxsr].
    pose proof (rebuilds_elements xs Hxs Hxsr x fuel rest Hx Hxr) as Hp.
    rewrite parse_value_S, stringify_array, canon_array.
    rewrite stringify_elements_cons. string_normal.
    rewrite string_app_assoc. string_normal.
    rewrite string_app_assoc. string_normal.
    simpl skip_ws at 1. simpl Ascii.eqb. cbv iota.
    destruct (stringify_opens_value x
                (stringify_elements JSON_stringify false xs +:+ String "]" rest))
      as (c & r & Heq & Hws & Hbracket & _).
    rewrite Heq in *. simpl skip_ws. rewrite Hws, Hbracket.
    rewrite Hp; [done|]. simpl in Hfuel. lia.
  - destruct fs as [|[k x] fs]; [reflexivity|].
    apply Forall_cons in IH as [Hx Hfs]. simpl in Hx.
    simpl in Hrep. apply andb_true_iff in Hrep as [Hxr Hfsr].
    pose proof (rebuilds_members fs Hfs Hfsr k x [] fuel rest Hx Hxr) as Hp.
    rewrite parse_value_S, stringify_object, canon_object.
    rewrite stringify_members_cons. string_normal.
    rewrite string_app_assoc. string_normal.
    rewrite (string_app_assoc (quote k)). string_normal.
    rewrite (string_app_assoc (JSON_stringify x)). string_normal.
    simpl skip_ws at 1. simpl Ascii.eqb. cbv iota.
    rewrite quote_app in *. simpl skip_ws. simpl Ascii.eqb. cbv iota.
    rewrite Hp; [done|]. simpl in Hfuel. lia.
Qed.

(** [JSON.parse(JSON.stringify(v))] for a value of the model. *)
Lemma parse_stringify_canon (v : value) :
  representable v = true -> JSON_parse (JSON_stringify v) = Returns (canon v).
Proof.
  intros Hrep. unfold JSON_parse.
  pose proof (stringify_rebuilds v Hrep
                (2 * String.length (JSON_stringify v) + 2)%nat "") as Hparse.
  rewrite string_app_nil_r in Hparse. rewrite Hparse; [done| |done].
  pose proof (need_le_length v). lia.
Qed.

Lemma insert_new_last (k : string) (v : value) (acc : list (string * value)) :
  array_index k = None -> insert_new k v acc = acc ++ [(k, v)].
Proof.
  intros Hk. induction acc as [|[k' v'] acc IH]; simpl; [done|].
  unfold comes_before. rewrite Hk. by rewrite IH.
Qed.

Lemma fold_define_plain (g : value -> value) (fs acc : list (string * value)) :
  Forall (fun k => array_index k = None) fs.*1 -> NoDup (acc.*1 ++ fs.*1) ->
  fold_left (fun acc kv => define (fst kv) (g (snd kv)) acc) fs acc
  = acc ++ map (fun kv => (fst kv, g (snd kv))) fs.
Proof.
  revert acc. induction fs as [|[k x] fs IH]; intros acc Hidx Hnd; simpl.
  - by rewrite app_nil_r.
  - simpl in Hidx. apply Forall_cons in Hidx as [Hk Hidx].
    assert (Hfresh : own acc k = None).
    { apply own_None_notin. intros Hin.
      apply NoDup_app in Hnd as (_ & Hdisj & _).
      apply (Hdisj k Hin). simpl. apply list_elem_of_here. }
    unfold define at 2. rewrite Hfresh, (insert_new_last k _ acc Hk).
    rewrite IH; [by rewrite <- app_assoc|done|].
    rewrite fmap_app. simpl. rewrite <- app_assoc. exact Hnd.
Qed.

Lemma plain_keys_spec (ks : list string) :
  plain_keys ks = true -> Forall (fun k => array_index k = None) ks /\ NoDup ks.
Proof.
  unfold plain_keys. intros [Hidx Hnd]%andb_true_iff. split.
  - apply Forall_forall. intros k Hk.
    rewrite forallb_forall in Hidx. specialize (Hidx k).
    rewrite <- list_elem_of_In in Hidx. specialize (Hidx Hk).
    apply negb_true_iff, bool_decide_eq_false in Hidx.
    destruct (array_index k); [|done]. by destruct Hidx.
  - by apply bool_decide_eq_true in Hnd.
Qed.

(** A document with plain keys is rebuilt as it is. *)
Lemma canon_plain (v : value) : plain v = true -> canon v = v.
Proof.
  induction v as [| b | n | s | items IH | fs IH] using value_ind; try done.
  - simpl plain. intros Hp. rewrite canon_array. f_equal.
    induction items as [|x items IHitems]; [done|].
    apply Forall_cons in IH as [Hx Hitems].
    simpl in Hp. apply andb_true_iff in Hp as [Hpx Hpi].
    simpl. by rewrite Hx, IHitems.
  - simpl plain. intros [Hkeys Hp]%andb_true_iff. rewrite canon_object. f_equal.
    apply plain_keys_spec in Hkeys as [Hidx Hnd].
    rewrite (fold_define_plain canon fs []) by done. simpl.
    clear Hidx Hnd. induction fs as [|[k x] fs IHfs]; [done|].
    apply Forall_cons in IH as [Hx Hfs]. simpl in Hx.
    simpl in Hp. apply andb_true_iff in Hp as [Hpx Hpf].
    simpl. by rewrite Hx, IHfs.
Qed.

(** ** The endpoints, continued *)

Lemma read_modify_write_returns (uid : string)
    (f : option user_row -> outcome value) (w w' : world) (resp : value) :
  read_modify_write uid f w = (Returns resp, w') ->
  exists m, f (users w !! uid) = Returns m /\ resp = respond m
    /\ w' = record (Update uid (Some (JSON_stringify m)))
              (store uid (Some (JSON_stringify m)) (record (FindOne uid) w)).
Proof.
  unfold read_modify_write. intros H.
  destruct (f (users w !! uid)) as [m| |]; simplify_eq. eauto.
Qed.

Lemma updated_metadata_representable (body : set_body) (u : option user_row)
    (m : value) :
  representable (body_metadata body) = true ->
  updated_metadata body u = Returns m -> representable m = true.
Proof.
  intros Hrep. unfold updated_metadata, obind. intros H.
  repeat case_match; simplify_eq; try done.
  apply merge_representable; [|done]. by eapply JSON_parse_representable.
Qed.

Lemma patched_metadata_representable (body : update_body) (u : option user_row)
    (m : value) :
  representable (body_value body) = true ->
  patched_metadata body u = Returns m -> representable m = true.
Proof.
  intros Hrep H.
  by destruct (patched_metadata_mapping body u m Hrep H).
Qed.

Lemma truthy_metadata_stringify (m : value) :
  truthy_metadata (Some {| metadata := Some (JSON_stringify m) |})
  = Some (JSON_stringify m).
Proof.
  simpl. pose proof (stringify_nonempty m) as Hlen.
  destruct (JSON_stringify m); [simpl in Hlen; lia|done].
Qed.

(** X7.  What a completed [setMetadata] or [updateMetadata] answers is what
    [getMetadata] answers next: for a caller with a row, and values within
    the numbers of the model, the metadata read back is the metadata of the
    response as [JSON.parse] rebuilds it, the very same document when its
    keys are plain. *)
Theorem get_after_write
    (op : operation) (s : option session) (uid : string) (w w' : world)
    (m : value) :
  caller s = Some uid -> is_Some (users w !! uid) ->
  representable (payload op) = true ->
  handle op s w = (Returns (respond m), w') ->
  getMetadata s w'
    = (Returns (JObj [("metadata", canon m)]), record (FindOne uid) w')
  /\ (plain m = true ->
      fst (getMetadata s w') = Returns (JObj [("metadata", m)])).
Proof.
  intros Hs [r Hrow] Hrep H.
  assert (Hm : representable m = true
               /\ w' = record (Update uid (Some (JSON_stringify m)))
                         (store uid (Some (JSON_stringify m)) (record (FindOne uid) w))).
  { destruct op as [body| |body|]; unfold handle in H.
    - rewrite (setMetadata_run s uid Hs) in H.
      apply read_modify_write_returns in H as (m' & Hf & Heq & ->).
      injection Heq as <-. split; [|done].
      by eapply updated_metadata_representable.
    - rewrite (getMetadata_run s uid Hs) in H.
      unfold obind in H. by repeat case_match; simplify_eq.
    - rewrite (updateMetadata_run s uid Hs) in H.
      apply read_modify_write_returns in H as (m' & Hf & Heq & ->).
      injection Heq as <-. split; [|done].
      by eapply patched_metadata_representable.
    - rewrite (deleteMetadata_run s uid Hs) in H. by simplify_eq. }
  destruct Hm as [Hmrep ->].
  assert (Hget : getMetadata s
                   (record (Update uid (Some (JSON_stringify m)))
                      (store uid (Some (JSON_stringify m)) (record (FindOne uid) w)))
                 = (Returns (JObj [("metadata", canon m)]),
                    record (FindOne uid)
                      (record (Update uid (Some (JSON_stringify m)))
                         (store uid (Some (JSON_stringify m))
                            (record (FindOne uid) w))))).
  { rewrite (getMetadata_run s uid Hs). f_equal.
    change (users (record (Update uid (Some (JSON_stringify m)))
                     (store uid (Some (JSON_stringify m)) (record (FindOne uid) w))))
      with (users (store uid (Some (JSON_stringify m)) (record (FindOne uid) w))).
    rewrite users_store_same.
    change (users (record (FindOne uid) w)) with (users w). rewrite Hrow.
    unfold load. simpl fmap. rewrite truthy_metadata_stringify.
    by rewrite parse_stringify_canon. }
  split; [exact Hget|].
  intros Hplain. rewrite Hget. simpl. by rewrite canon_plain.
Qed.

Lemma get_after_write_witness :
  let w := fresh {[ "u1" := row (js "{'theme':'dark'}") ]} in
  let body := {| body_path := Some "prefs.mail"; body_value := JBool false |} in
  let m := JObj [("theme", JStr "dark"); ("prefs", JObj [("mail", JBool false)])] in
  fst (getMetadata (logged_in "u1")
         (snd (handle (UpdateMetadata body) (logged_in "u1") w)))
  = Returns (JObj [("metadata", m)]).
Proof.
  intros w body m.
  apply (get_after_write (UpdateMetadata body) (logged_in "u1") "u1" w _ m);
    try reflexivity.
  by eexists.
Defined.

(** X8.  [getMetadata] never writes: whatever the session and the table, the
    user table is as before and the log gains no [update]. *)
Theorem getMetadata_never_writes (s : option session) (w : world) :
  users (snd (getMetadata s w)) = users w
  /\ filter is_write (calls (snd (getMetadata s w))) = filter is_write (calls w).
Proof.
  destruct (caller s) as [uid|] eqn:Hs.
  - rewrite (getMetadata_run s uid Hs). simpl. split; [done|].
    rewrite filter_app. simpl. by rewrite app_nil_r.
  - change (getMetadata s w) with (handle GetMetadata s w).
    by rewrite handle_unauthorized.
Qed.

(** X9.  A column that holds a non-empty text that is not JSON makes
    [getMetadata] throw the SyntaxError right after the read; [setMetadata]
    in replace mode and [deleteMetadata] never parse the column, so they
    complete on it and write. *)
Theorem corrupt_column (s : option session) (uid text : string) (w : world) :
  caller s = Some uid -> users w !! uid = Some (row text) ->
  text <> "" -> JSON_parse text = Throws SyntaxError ->
  getMetadata s w = (Throws SyntaxError, record (FindOne uid) w)
  /\ (forall m,
        let new := Some (JSON_stringify m) in
        setMetadata s {| body_metadata := m; body_merge := Some false |} w
        = (Returns (respond m),
           record (Update uid new) (store uid new (record (FindOne uid) w))))
  /\ deleteMetadata s w
     = (Returns (JObj [("success", JBool true)]),
        record (Update uid None) (store uid None w)).
Proof.
  intros Hs Hrow Hne Hbad.
  assert (Ht : truthy_metadata (users w !! uid) = Some text).
  { rewrite Hrow. simpl. apply String.eqb_neq in Hne. by rewrite Hne. }
  split; [|split].
  - rewrite (getMetadata_run s uid Hs). unfold load. by rewrite Ht, Hbad.
  - intros m new. by rewrite (setMetadata_run s uid Hs).
  - by rewrite (deleteMetadata_run s uid Hs).
Qed.

Lemma corrupt_column_witness :
  let w := fresh {[ "u1" := row "{oops" ]} in
  getMetadata (logged_in "u1") w = (Throws SyntaxError, record (FindOne "u1") w)
  /\ users (snd (setMetadata (logged_in "u1")
                   {| body_metadata := JObj []; body_merge := Some false |} w)) !! "u1"
     = Some (row "{}").
Proof.
  intros w.
  destruct (corrupt_column (logged_in "u1") "u1" "{oops" w) as (Hget & Hset & _);
    [reflexivity|reflexivity|discriminate|reflexivity|].
  split; [exact Hget|]. rewrite Hset. vm_compute. reflexivity.
Defined.

(** X10.  [updateMetadata] for a caller whose column is falsy (null, empty,
    or no row), with a path none of whose segments names a property of
    [Object.prototype]: the answer is the chain of nested mappings along the
    path ending in the value, and that chain is what is written. *)
Theorem updateMetadata_from_nothing
    (s : option session) (uid path : string) (v : value) (w : world) :
  caller s = Some uid -> truthy_metadata (users w !! uid) = None ->
  Forall (fun k => inherited k = false) (split "." path) ->
  let m := nest (split "." path) v in
  updateMetadata s {| body_path := Some path; body_value := v |} w
  = (Returns (respond m),
     record (Update uid (Some (JSON_stringify m)))
       (store uid (Some (JSON_stringify m)) (record (FindOne uid) w))).
Proof.
  intros Hs Hnone Hplain m.
  rewrite (updateMetadata_run s uid Hs).
  unfold read_modify_write, patched_metadata, load. rewrite Hnone. simpl.
  by rewrite walk_fresh; [|apply split_nonempty|].
Qed.

Lemma updateMetadata_from_nothing_witness :
  let w := fresh {[ "u1" := blank_row ]} in
  fst (updateMetadata (logged_in "u1")
         {| body_path := Some "a.b.c"; body_value := JNum 5 |} w)
  = Returns (respond (JObj [("a", JObj [("b", JObj [("c", JNum 5)])])])).
Proof.
  intros w.
  rewrite (updateMetadata_from_nothing (logged_in "u1") "u1" "a.b.c" (JNum 5) w);
    [reflexivity|reflexivity|reflexivity|].
  repeat constructor.
Defined.

(** ** The request bodies *)

(** X11.  [/metadata/set] on a body that is an object with a [metadata]
    property is [setMetadata] on that metadata, with the merge flag read by
    truthiness: only a missing [merge] defaults to true, so [merge: null],
    [merge: 0] and [merge: false] all replace. *)
Theorem setMetadata_request_merge_flag
    (s : option session) (fs : list (string * value)) (m : value) (w : world) :
  own fs "metadata" = Some m ->
  setMetadata_request s (JObj fs) w
  = setMetadata s {| body_metadata := m;
                     body_merge := truthy <$> own fs "merge" |} w.
Proof.
  intros Hm. unfold setMetadata_request, setMetadata, merge_flag.
  destruct (caller s) as [uid|] eqn:Hs.
  2:{ unfold bind. by rewrite (require_user_invalid s Hs). }
  rewrite (require_user_valid s uid Hs).
  unfold bind, lift, ret, findOne, update. simpl. rewrite Hm.
  destruct (own fs "merge") as [flag|]; simpl.
  - destruct (truthy flag); [|done].
    destruct (truthy_metadata (users w !! uid)) as [text|]; [|done].
    by destruct (JSON_parse text).
  - destruct (truthy_metadata (users w !! uid)) as [text|]; [|done].
    by destruct (JSON_parse text).
Qed.

Lemma setMetadata_request_merge_flag_witness :
  let w := fresh {[ "u1" := row (js "{'theme':'dark'}") ]} in
  let body := JObj [("metadata", JObj [("lang", JStr "en")]); ("merge", JNull)] in
  users (snd (setMetadata_request (logged_in "u1") body w)) !! "u1"
  = Some (row (js "{'lang':'en'}")).
Proof.
  intros w body.
  unfold body.
  rewrite (setMetadata_request_merge_flag (logged_in "u1")
             [("metadata", JObj [("lang", JStr "en")]); ("merge", JNull)]
             (JObj [("lang", JStr "en")]) w eq_refl).
  vm_compute. reflexivity.
Defined.

(** X12.  [/metadata/update] on a body that is an object with a string
    [path] and a [value] is [updateMetadata] on that path and value. *)
Theorem updateMetadata_request_typed
    (s : option session) (fs : list (string * value)) (path : string)
    (v : value) (w : world) :
  own fs "path" = Some (JStr path) -> own fs "value" = Some v ->
  updateMetadata_request s (JObj fs) w
  = updateMetadata s {| body_path := Some path; body_value := v |} w.
Proof.
  intros Hp Hv. unfold updateMetadata_request, updateMetadata, split_path.
  destruct (caller s) as [uid|] eqn:Hs.
  2:{ unfold bind. by rewrite (require_user_invalid s Hs). }
  rewrite (require_user_valid s uid Hs).
  unfold bind, lift, ret, findOne, update. simpl. rewrite Hp, Hv.
  destruct (truthy_metadata (users w !! uid)) as [text|]; [|done].
  by destruct (JSON_parse text).
Qed.

Lemma updateMetadata_request_typed_witness :
  let w := fresh {[ "u1" := row (js "{'theme':'dark'}") ]} in
  let body := JObj [("path", JStr "theme"); ("value", JStr "light")] in
  users (snd (updateMetadata_request (logged_in "u1") body w)) !! "u1"
  = Some (row (js "{'theme':'light'}")).
Proof.
  intros w body.
  unfold body.
  rewrite (updateMetadata_request_typed (logged_in "u1")
             [("path", JStr "theme"); ("value", JStr "light")]
             "theme" (JStr "light") w eq_refl eq_refl).
  vm_compute. reflexivity.
Defined.

(** X13.  A body that is [null] makes [/metadata/set] and [/metadata/update]
    throw TypeError for an authenticated caller before any adapter call (the
    body is destructured before the row is read); without a valid identity
    the answer is still UNAUTHORIZED. *)
Theorem null_body_throws_before_storage
    (a : action) (s : option session) (w : world) :
  a = ActSet \/ a = ActUpdate ->
  endpoint_handler a s JNull w
  = (Throws (match caller s with
             | Some _ => TypeError
             | None => UNAUTHORIZED
             end), w).
Proof.
  intros [-> | ->]; simpl;
    unfold setMetadata_request, updateMetadata_request, bind, lift;
    destruct (caller s) as [uid|] eqn:Hs;
    by rewrite ?(require_user_valid s uid Hs), ?(require_user_invalid s Hs).
Qed.

Lemma null_body_throws_before_storage_witness :
  let w := fresh {[ "u1" := row "{}" ]} in
  endpoint_handler ActUpdate (logged_in "u1") JNull w = (Throws TypeError, w).
Proof.
  intros w.
  apply (null_body_throws_before_storage ActUpdate (logged_in "u1") w).
  by right.
Defined.

(** X14.  [/metadata/update] with a [path] that is not a string (missing,
    null, a number, a boolean, an array or an object) never writes: once the
    row is read and its column deserialised, [path.split] raises TypeError. *)
Theorem non_string_path_throws
    (s : option session) (uid : string) (fs : list (string * value)) (w : world) :
  caller s = Some uid ->
  (forall p, own fs "path" <> Some (JStr p)) ->
  updateMetadata_request s (JObj fs) w
  = (let* _ := load (JObj []) (users w !! uid) in Throws TypeError,
     record (FindOne uid) w).
Proof.
  intros Hs Hpath. unfold updateMetadata_request, split_path, load.
  rewrite (require_user_valid s uid Hs).
  unfold bind, lift, ret, findOne. simpl.
  assert (Hsplit : match own fs "path" with
                   | Some (JStr p) => Returns (split "." p)
                   | _ => Throws TypeError
                   end = Throws TypeError).
  { destruct (own fs "path") as [[| | |p| |]|] eqn:E; try done.
    by destruct (Hpath p). }
  destruct (truthy_metadata (users w !! uid)) as [text|].
  - destruct (JSON_parse text); simpl; [|done|done]. by rewrite Hsplit.
  - by rewrite Hsplit.
Qed.

Lemma non_string_path_throws_witness :
  let w := fresh {[ "u1" := row (js "{'a':1}") ]} in
  let body := JObj [("path", JArr [JStr "a"]); ("value", JNum 2)] in
  updateMetadata_request (logged_in "u1") body w
  = (Throws TypeError, record (FindOne "u1") w).
Proof.
  intros w body.
  unfold body.
  rewrite (non_string_path_throws (logged_in "u1") "u1"
             [("path", JArr [JStr "a"]); ("value", JNum 2)] w eq_refl).
  - vm_compute. reflexivity.
  - intros p. discriminate.
Defined.

(** ** The client *)

(** X15.  The options given to a client action win: spread last into the
    object handed to [$fetch], each of their keys (distinct, as in every
    object) replaces the value the action sets, [method] and [body]
    included, and every key they do not name keeps the value of the
    action. *)
Theorem client_options_override
    (a : action) (data : value) (opts : list (string * value)) (k : string) :
  NoDup opts.*1 ->
  own (client_options a data (Some (JObj opts))) k
  = match own opts k with
    | Some v => Some v
    | None => own (client_base a data) k
    end.
Proof. intros Hnd. unfold client_options. by apply own_spread_fields. Qed.

Lemma client_options_override_witness :
  own (client_options ActSet (JObj [("metadata", JObj [])])
         (Some (JObj [("method", JStr "GET"); ("cache", JStr "no-store")])))
      "method"
  = Some (JStr "GET").
Proof.
  rewrite (client_options_override ActSet _
             [("method", JStr "GET"); ("cache", JStr "no-store")] "method").
  - reflexivity.
  - apply (bool_decide_unpack _). vm_compute. reflexivity.
Defined.

(** X16.  Client and server agree: each client action calls the path of the
    endpoint of the same name; unless the options name a [method], it uses
    the method of that endpoint; and [setMetadata] and [updateMetadata] send
    their data as the body unless the options name a [body]. *)
Theorem client_matches_endpoint
    (a : action) (data : value) (opts : list (string * value)) :
  NoDup opts.*1 ->
  client_route a = endpoint_path a
  /\ own (client_options a data None) "method" = Some (JStr (endpoint_method a))
  /\ (own opts "method" = None ->
      own (client_options a data (Some (JObj opts))) "method"
      = Some (JStr (endpoint_method a)))
  /\ (a = ActSet \/ a = ActUpdate -> own opts "body" = None ->
      own (client_options a data None) "body" = Some data
      /\ own (client_options a data (Some (JObj opts))) "body" = Some data).
Proof.
  intros Hnd. split; [by destruct a|]. split; [by destruct a|]. split.
  - intros Hm. unfold client_options. rewrite own_spread_fields by done.
    rewrite Hm. by destruct a.
  - intros Ha Hb. split.
    + by destruct Ha as [-> | ->].
    + unfold client_options. rewrite own_spread_fields by done.
      rewrite Hb. by destruct Ha as [-> | ->].
Qed.

Lemma client_matches_endpoint_witness :
  client_route ActUpdate = endpoint_path ActUpdate
  /\ own (client_options ActUpdate (JObj [("path", JStr "a"); ("value", JNum 1)])
            (Some (JObj [("cache", JStr "no-store")]))) "method"
     = Some (JStr "POST").
Proof.
  destruct (client_matches_endpoint ActUpdate
              (JObj [("path", JStr "a"); ("value", JNum 1)])
              [("cache", JStr "no-store")]) as (Hroute & _ & Hmethod & _).
  - apply (bool_decide_unpack _). vm_compute. reflexivity.
  - split; [exact Hroute|]. apply Hmethod. reflexivity.
Defined.

(** ** Paths *)

(** X17.  Paths and lists of segments correspond: the segments of a path
    hold no dot, there is at least one, and joined by dots they give the
    path back; conversely every non-empty list of segments without dots is
    the list of segments of the path that joins them, so every nested key
    without a dot can be addressed. *)
Theorem path_segments (path : string) (segments : list string) :
  (split "." path <> []
   /\ Forall (fun seg => contains "." seg = false) (split "." path)
   /\ join "." (split "." path) = path)
  /\ (segments <> [] ->
      Forall (fun seg => contains "." seg = false) segments ->
      split "." (join "." segments) = segments).
Proof.
  split; [split; [|split]|].
  - apply split_nonempty.
  - apply split_segments.
  - apply join_split.
  - apply split_join.
Qed.

Lemma path_segments_witness :
  split "." (join "." ["profile"; "socialLinks"; "github"])
  = ["profile"; "socialLinks"; "github"].
Proof.
  apply (path_segments "" ["profile"; "socialLinks"; "github"]);
    [discriminate|repeat constructor].
Defined.
